(** * Chain-of-Draft prompt tool: complexity estimator, format enforcer,
      approach selector and orchestrator

    A shallow embedding of [complexity.py], [format.py], [reasoning.py] and
    the [ChainOfDraftClient] of [client.py], with the properties of the
    specification stated and proved (or refuted) over it.

    Conventions of the embedding:
    - a Python [str] is the list of its code points ([N]);
    - a Python [float] is the exact rational it stands for ([Q]); the
      rounding of binary floating point is not modelled;
    - a [dict] is a [gmap]; attribute dictionaries are record fields;
    - awaited collaborators (model backend, analytics store, example
      store, clock) are fields of an environment, and their effects are
      threaded through an explicit world. *)

From Stdlib Require Import ZArith NArith QArith Qround Qminmax Lia.
From Stdlib Require DecimalNat.
From stdpp Require Import base option list strings gmap.

Local Open Scope N_scope.

(** ** Python strings *)

Module Py.

Abbreviation char := N (only parsing).
Abbreviation str := (list N) (only parsing).

(** A literal of the source, as code points (literals here are ASCII). *)
Definition lit (s : string) : str :=
  map Ascii.N_of_ascii (String.list_ascii_of_string s).

Definition nl : char := 10.
Definition bullet : char := 8226.

(** [str.isspace] of one code point, also the class [\s] of [re] on [str]
    patterns and the separator set of [str.split()] and [str.strip()]. *)
Definition is_space (c : char) : bool :=
  ((9 <=? c) && (c <=? 13)) || ((28 <=? c) && (c <=? 32))
  || (c =? 133) || (c =? 160) || (c =? 5760)
  || ((8192 <=? c) && (c <=? 8202))
  || (c =? 8232) || (c =? 8233) || (c =? 8239) || (c =? 8287)
  || (c =? 12288).

(** The code points at which [is_space] holds. *)
Definition space_chars : list N :=
  [9; 10; 11; 12; 13; 28; 29; 30; 31; 32; 133; 160; 5760; 8192; 8193; 8194;
   8195; 8196; 8197; 8198; 8199; 8200; 8201; 8202; 8232; 8233; 8239; 8287;
   12288].

(** First code points of the runs of decimal digits (general category Nd,
    Unicode 14), each run of the given length. *)
Definition decimal_runs : list (N * N) :=
  [(48, 10); (1632, 10); (1776, 10); (1984, 10); (2406, 10); (2534, 10);
   (2662, 10); (2790, 10); (2918, 10); (3046, 10); (3174, 10); (3302, 10);
   (3430, 10); (3558, 10); (3664, 10); (3792, 10); (3872, 10); (4160, 10);
   (4240, 10); (6112, 10); (6160, 10); (6470, 10); (6608, 10); (6784, 10);
   (6800, 10); (6992, 10); (7088, 10); (7232, 10); (7248, 10); (42528, 10);
   (43216, 10); (43264, 10); (43472, 10); (43504, 10); (43600, 10);
   (44016, 10); (65296, 10); (66720, 10); (68912, 10); (69734, 10);
   (69872, 10); (69942, 10); (70096, 10); (70384, 10); (70736, 10);
   (70864, 10); (71248, 10); (71360, 10); (71472, 10); (71904, 10);
   (72016, 10); (72784, 10); (73040, 10); (73120, 10); (92768, 10);
   (92864, 10); (93008, 10); (120782, 50); (123200, 10); (123632, 10);
   (125264, 10); (130032, 10)].

(** The class [\d] of [re] on [str] patterns ([str.isdecimal]). *)
Definition is_decimal (c : char) : bool :=
  existsb (fun r => (fst r <=? c) && (c <? fst r + snd r)) decimal_runs.

(** An [int] used where a float is expected (true division). *)
Definition Qnat (n : nat) : Q := inject_Z (Z.of_nat n).

Definition nonempty (s : str) : bool :=
  match s with [] => false | _ :: _ => true end.

(** [s.split()]: the maximal runs of non-whitespace, in order. *)
Fixpoint split (s : str) : list str :=
  match s with
  | [] => []
  | c :: r =>
      if is_space c then split r
      else match r with
           | [] => [[c]]
           | c' :: _ =>
               if is_space c' then [c] :: split r
               else match split r with
                    | w :: ws => (c :: w) :: ws
                    | [] => [[c]]
                    end
           end
  end.

(** A word: a non-empty run without whitespace. *)
Definition is_word (w : str) : Prop :=
  w <> [] /\ Forall (fun c => is_space c = false) w.

Fixpoint lstrip (s : str) : str :=
  match s with
  | [] => []
  | c :: r => if is_space c then lstrip r else s
  end.

Fixpoint rstrip (s : str) : str :=
  match s with
  | [] => []
  | c :: r =>
      match rstrip r with
      | [] => if is_space c then [] else [c]
      | r' => c :: r'
      end
  end.

(** [s.strip()] *)
Definition strip (s : str) : str := rstrip (lstrip s).

(** [s.startswith(p)] *)
Fixpoint startswith (p s : str) : bool :=
  match p, s with
  | [], _ => true
  | a :: p', b :: s' => (a =? b) && startswith p' s'
  | _ :: _, [] => false
  end.

(** [s.split(sep)] for a non-empty [sep]: scanning from the left, every
    occurrence of [sep] that does not overlap the previous one ends a
    field. [skip] counts the code points of an occurrence still to be
    passed over, [cur] is the current field, reversed. *)
Fixpoint split_on_aux (sep : str) (skip : nat) (cur : str) (s : str)
  : list str :=
  match s with
  | [] => [rev cur]
  | c :: r =>
      match skip with
      | S k => split_on_aux sep k cur r
      | O =>
          if startswith sep s
          then rev cur :: split_on_aux sep (length sep - 1) [] r
          else split_on_aux sep 0 (c :: cur) r
      end
  end.

Definition split_on (sep s : str) : list str := split_on_aux sep 0 [] s.

(** [s.find(sub)]: index of the first occurrence, if any. *)
Fixpoint find (sub s : str) : option nat :=
  if startswith sub s then Some O
  else match s with
       | [] => None
       | _ :: r => S <$> find sub r
       end.

(** [sub in s] *)
Definition contains (sub s : str) : bool :=
  match find sub s with Some _ => true | None => false end.

(** [s.count(c)] for a one-character [c]. *)
Definition count_char (c : char) (s : str) : nat :=
  length (filter (fun x => x = c) s).

(** [sep.join(parts)] *)
Fixpoint join (sep : str) (parts : list str) : str :=
  match parts with
  | [] => []
  | [p] => p
  | p :: ps => p ++ sep ++ join sep ps
  end.

(** [l[:n]] for an integer [n]: a negative bound counts from the end. *)
Definition slice_to {A} (n : Z) (l : list A) : list A :=
  if (0 <=? n)%Z then take (Z.to_nat n) l
  else take (length l - Z.to_nat (- n)) l.

(** [str(n)] of a non-negative [int]: its decimal digits. *)
Fixpoint uint_codes (d : Decimal.uint) : str :=
  match d with
  | Decimal.Nil => []
  | Decimal.D0 d => 48 :: uint_codes d
  | Decimal.D1 d => 49 :: uint_codes d
  | Decimal.D2 d => 50 :: uint_codes d
  | Decimal.D3 d => 51 :: uint_codes d
  | Decimal.D4 d => 52 :: uint_codes d
  | Decimal.D5 d => 53 :: uint_codes d
  | Decimal.D6 d => 54 :: uint_codes d
  | Decimal.D7 d => 55 :: uint_codes d
  | Decimal.D8 d => 56 :: uint_codes d
  | Decimal.D9 d => 57 :: uint_codes d
  end.

Definition str_of_nat (n : nat) : str := uint_codes (Nat.to_uint n).

(** The code points of a string that are not whitespace, in order. *)
Definition ink (s : str) : str := filter (fun c => is_space c = false) s.

(** [str.lower] needs the case tables of the Unicode database, which are
    context dependent and belong to the interpreter; the embedding takes
    the function as given. *)
Class CaseTable := { lower : str -> str }.

(** Lower-casing of the letters A to Z, every other code point kept: it
    agrees with [str.lower] on ASCII text. *)
Definition ascii_lower : CaseTable :=
  {| lower := map (fun c => if (65 <=? c) && (c <=? 90) then c + 32 else c) |}.

End Py.

(** ** complexity.py *)

Module Complexity.
Import Py.

(** [round(x)] of a float: to the nearest integer, ties to the even one. *)
Definition round (x : Q) : Z :=
  let f := Qfloor x in
  match (x - inject_Z f ?= 1 # 2)%Q with
  | Lt => f
  | Gt => (f + 1)%Z
  | Eq => if Z.even f then f else (f + 1)%Z
  end.

(** The two attribute dictionaries of a [ComplexityEstimator]. *)
Record ComplexityEstimator := {
  domain_base_limits : gmap (list N) Z;
  complexity_indicators : gmap (list N) (list (list N))
}.

(** [ComplexityEstimator.__init__] *)
Definition init : ComplexityEstimator := {|
  domain_base_limits := list_to_map
    [(lit "math", 6%Z); (lit "logic", 5%Z); (lit "common_sense", 4%Z);
     (lit "physics", 7%Z); (lit "chemistry", 6%Z); (lit "biology", 5%Z);
     (lit "code", 8%Z); (lit "puzzle", 5%Z); (lit "general", 5%Z)];
  complexity_indicators := list_to_map
    [(lit "math", map lit
       ["integral"; "derivative"; "equation"; "proof"; "theorem";
        "calculus"; "matrix"; "vector"; "linear algebra"; "probability";
        "statistics"; "geometric series"; "differential"; "polynomial";
        "factorial"]);
     (lit "logic", map lit
       ["if and only if"; "necessary condition"; "sufficient";
        "contradiction"; "syllogism"; "premise"; "fallacy"; "converse";
        "counterexample"; "logical equivalence"; "negation";
        "disjunction"; "conjunction"]);
     (lit "code", map lit
       ["recursion"; "algorithm"; "complexity"; "optimization";
        "function"; "class"; "object"; "inheritance"; "polymorphism";
        "data structure"; "binary tree"; "hash table"; "graph";
        "dynamic programming"]);
     (lit "physics", map lit
       ["quantum"; "relativity"; "momentum"; "force"; "acceleration";
        "energy"; "thermodynamics"; "electric field"; "magnetic field";
        "potential"; "entropy"; "wavelength"; "frequency"]);
     (lit "chemistry", map lit
       ["reaction"; "molecule"; "compound"; "element"; "equilibrium";
        "acid"; "base"; "oxidation"; "reduction"; "catalyst"; "isomer"]);
     (lit "biology", map lit
       ["gene"; "protein"; "enzyme"; "cell"; "tissue"; "organ"; "system";
        "metabolism"; "photosynthesis"; "respiration"; "homeostasis"]);
     (lit "puzzle", map lit
       ["constraint"; "sequence"; "pattern"; "rules"; "probability";
        "combination"; "permutation"; "optimal"; "strategy"])]
|}.

Section Estimator.
Context `{CaseTable}.
Variable self : ComplexityEstimator.

(** [self.domain_base_limits.get(domain.lower(), 5)] *)
Definition base_limit (domain : str) : Z :=
  default 5%Z (domain_base_limits self !! lower domain).

(** [min(len(problem.split()) / 50, 2)] *)
Definition length_factor (problem : str) : Q :=
  Qmin (Qnat (length (split problem)) / 50) 2.

(** [self.complexity_indicators.get(domain.lower(), [])] *)
Definition indicators (domain : str) : list str :=
  default [] (complexity_indicators self !! lower domain).

(** The counting loop of [estimate_complexity]. *)
Definition indicator_count (problem domain : str) : nat :=
  fold_left
    (fun count indicator =>
       if contains (lower indicator) (lower problem) then S count else count)
    (indicators domain) O.

(** [min(1 + (indicator_count * 0.2), 1.8)] *)
Definition indicator_factor_of (count : nat) : Q :=
  Qmin (1 + Qnat count * (2 # 10)) (18 # 10).

Definition indicator_factor (problem domain : str) : Q :=
  indicator_factor_of (indicator_count problem domain).

(** [1 + (problem.count("?") * 0.2)] *)
Definition question_factor (problem : str) : Q :=
  1 + Qnat (count_char 63 problem) * (2 # 10).

(** [[s for s in problem.split(".") if s.strip()]] *)
Definition sentences (problem : str) : list str :=
  filter (fun s => nonempty (strip s)) (split_on [46] problem).

(** [len(problem.split()) / max(len(sentences), 1)] *)
Definition words_per_sentence (problem : str) : Q :=
  Qnat (length (split problem)) / Qnat (Nat.max (length (sentences problem)) 1).

(** [min(words_per_sentence / 15, 1.5)] *)
Definition sentence_complexity_factor (problem : str) : Q :=
  Qmin (words_per_sentence problem / 15) (15 # 10).

(** [any(term in problem.lower() for term in terms)] *)
Definition any_term (terms : list string) (problem : str) : bool :=
  existsb (fun term => contains (lit term) (lower problem)) terms.

Definition domain_factor (problem domain : str) : Q :=
  if bool_decide (lower domain = lit "math")
     && any_term ["prove"; "proof"; "theorem"] problem
  then 13 # 10
  else if bool_decide (lower domain = lit "code")
          && any_term ["implement"; "function"; "algorithm"] problem
  then 12 # 10
  else 1.

(** [max(3, min(adjusted_limit, 10))] *)
Definition clamp (adjusted_limit : Z) : Z := Z.max 3 (Z.min adjusted_limit 10).

Definition impact_factor (problem domain : str) : Q :=
  Qmax (length_factor problem)
    (Qmax (indicator_factor problem domain)
       (Qmax (question_factor problem)
          (Qmax (sentence_complexity_factor problem)
             (domain_factor problem domain)))).

Definition estimate_complexity (problem domain : str) : Z :=
  let adjusted_limit :=
    round (inject_Z (base_limit domain) * impact_factor problem domain) in
  clamp adjusted_limit.

(** The dictionary returned by [analyze_problem]. *)
Record Analysis := {
  a_domain : str;
  a_base_limit : Z;
  word_count : nat;
  a_length_factor : Q;
  a_indicator_count : nat;
  found_indicators : list str;
  a_indicator_factor : Q;
  question_count : nat;
  a_question_factor : Q;
  sentence_count : nat;
  a_words_per_sentence : Q;
  a_sentence_complexity_factor : Q;
  estimated_complexity : Z
}.

Definition analyze_problem (problem domain : str) : Analysis :=
  let found :=
    filter (fun ind => contains (lower ind) (lower problem) = true)
           (indicators domain) in
  {| a_domain := domain;
     a_base_limit := base_limit domain;
     word_count := length (split problem);
     a_length_factor := length_factor problem;
     a_indicator_count := length found;
     found_indicators := found;
     a_indicator_factor := indicator_factor_of (length found);
     question_count := count_char 63 problem;
     a_question_factor := question_factor problem;
     sentence_count := length (sentences problem);
     a_words_per_sentence := words_per_sentence problem;
     a_sentence_complexity_factor := sentence_complexity_factor problem;
     estimated_complexity :=
       clamp (round (inject_Z (base_limit domain)
                     * Qmax (length_factor problem)
                         (Qmax (indicator_factor_of (length found))
                            (Qmax (question_factor problem)
                               (sentence_complexity_factor problem))))) |}.

End Estimator.

End Complexity.

(** ** format.py *)

Module Format.
Import Py.

(** *** The regular expressions

    Each pattern is a scanner giving the length of the match at the start
    of its argument. The classes [\d] and [\s] are disjoint from each other
    and from the literals that follow them in the patterns, so the greedy
    scan is the only way a match can succeed and no backtracking occurs. *)

(** Length of the longest prefix whose code points all satisfy [p]. *)
Fixpoint span (p : char -> bool) (s : str) : nat :=
  match s with
  | c :: r => if p c then S (span p r) else O
  | [] => O
  end.

Definition orelse (a b : option nat) : option nat :=
  match a with Some n => Some n | None => b end.
Infix "<|>" := orelse (at level 60, right associativity).

(** [\d+\.\s*] *)
Definition re_number (s : str) : option nat :=
  let d := span is_decimal s in
  match d, drop d s with
  | S _, c :: r => if c =? 46 then Some (d + 1 + span is_space r)%nat else None
  | _, _ => None
  end.

(** [Step\s+\d+:] *)
Definition re_step (s : str) : option nat :=
  if startswith (lit "Step") s then
    let r := drop 4 s in
    let w := span is_space r in
    let d := span is_decimal (drop w r) in
    match w, d, drop d (drop w r) with
    | S _, S _, c :: _ => if c =? 58 then Some (4 + w + d + 1)%nat else None
    | _, _, _ => None
    end
  else None.

(** [x\s+] for a literal code point [x]: the pattern [•\s+]. *)
Definition re_lit_ws (x : char) (s : str) : option nat :=
  match s with
  | c :: r =>
      if c =? x
      then match span is_space r with S k => Some (2 + k)%nat | O => None end
      else None
  | [] => None
  end.

(** [\nx\s+]: the patterns [\n-\s+] and [\n\*\s+]. *)
Definition re_nl_lit_ws (x : char) (s : str) : option nat :=
  match s with
  | c :: r => if c =? nl then S <$> re_lit_ws x r else None
  | [] => None
  end.

(** [\s*x\s+]: the patterns [\s*-\s+] and [\s*\*\s+]. *)
Definition re_ws_lit_ws (x : char) (s : str) : option nat :=
  let w := span is_space s in
  (fun n => w + n)%nat <$> re_lit_ws x (drop w s).

(** [^\s*\d+\.] *)
Definition re_indented_number (s : str) : option nat :=
  let w := span is_space s in
  let d := span is_decimal (drop w s) in
  match d, drop d (drop w s) with
  | S _, c :: _ => if c =? 46 then Some (w + d + 1)%nat else None
  | _, _ => None
  end.

Definition dash : char := 45.
Definition star : char := 42.

(** [self.step_pattern], compiled with [re.MULTILINE], tried at one
    position; [bol] tells whether [^] matches there (start of the text or
    just after a newline). *)
Definition step_pattern_at (bol : bool) (s : str) : option nat :=
  re_number s <|> re_step s <|> re_nl_lit_ws dash s <|> re_nl_lit_ws star s
  <|> re_lit_ws bullet s
  <|> (if bol then re_ws_lit_ws dash s <|> re_ws_lit_ws star s else None).

(** [self.step_pattern.search(text)], as a truth value. *)
Fixpoint search_from (bol : bool) (s : str) : bool :=
  match step_pattern_at bol s with
  | Some _ => true
  | None =>
      match s with
      | [] => false
      | c :: r => search_from (c =? nl) r
      end
  end.

Definition step_pattern_search (text : str) : bool := search_from true text.

(** [self.step_pattern.match(line)], as a truth value. *)
Definition step_pattern_match (line : str) : bool :=
  bool_decide (is_Some (step_pattern_at true line)).

(** [re.match(r'^(\d+\.\s*|Step\s+\d+:|\s*-\s+|\s*\*\s+|•\s+)', step)]:
    the length of the marker. *)
Definition marker_match (step : str) : option nat :=
  re_number step <|> re_step step <|> re_ws_lit_ws dash step
  <|> re_ws_lit_ws star step <|> re_lit_ws bullet step.

(** *** The enforcer *)

(** One turn of the loop over the lines in [_split_into_steps]; the state
    is [(parts, current_part)]. *)
Definition split_line (st : list str * str) (line : str) : list str * str :=
  let '(parts, current_part) := st in
  if step_pattern_match line
     || bool_decide (is_Some (re_indented_number line))
  then ((if nonempty current_part then parts ++ [current_part] else parts),
        line)
  else (parts,
        if nonempty current_part then current_part ++ [nl] ++ line else line).

Definition _split_into_steps (reasoning : str) : list str :=
  if step_pattern_search reasoning then
    let lines := split_on [nl] reasoning in
    let '(parts, current_part) := fold_left split_line lines ([], []) in
    let parts :=
      if nonempty current_part then parts ++ [current_part] else parts in
    match parts with [] => [reasoning] | _ => parts end
  else
    map strip
      (filter (fun line => nonempty (strip line)) (split_on [nl] reasoning)).

(** [match.group(0) if match else ""] *)
Definition marker_of (step : str) : str :=
  match marker_match step with Some n => take n step | None => [] end.

(** [step[len(marker):].strip() if marker else step] *)
Definition content_of (step : str) : str :=
  let marker := marker_of step in
  if nonempty marker then strip (drop (length marker) step) else step.

Definition _enforce_step (step : str) (max_words : Z) : str :=
  let words := split step in
  if (Z.of_nat (length words) <=? max_words)%Z then step
  else
    let marker := marker_of step in
    let content := content_of step in
    let content_words := split content in
    let truncated := join [32] (slice_to max_words content_words) in
    marker ++ truncated.

Definition enforce_word_limit (reasoning : str) (max_words_per_step : Z) : str :=
  let steps := _split_into_steps reasoning in
  let enforced_steps :=
    map (fun step => _enforce_step step max_words_per_step) steps in
  join [nl] enforced_steps.

(** The dictionary returned by [analyze_adherence]. *)
Record Adherence := {
  total_steps : nat;
  steps_within_limit : nat;
  average_words_per_step : Q;
  max_words_in_any_step : nat;
  adherence_rate : Q;
  step_counts : list nat
}.

(** [len(content.split())] of one step, marker excluded. *)
Definition step_count (step : str) : nat := length (split (content_of step)).

(** [sum(1 for count in step_counts if count <= max_words_per_step)] *)
Definition within_limit (max_words_per_step : Z) (counts : list nat) : nat :=
  length (filter (fun count => (Z.of_nat count <= max_words_per_step)%Z) counts).

Definition analyze_adherence (reasoning : str) (max_words_per_step : Z)
  : Adherence :=
  let steps := _split_into_steps reasoning in
  let counts := map step_count steps in
  {| total_steps := length steps;
     steps_within_limit := within_limit max_words_per_step counts;
     average_words_per_step :=
       if bool_decide (steps = []) then 0
       else Qnat (foldr Nat.add O counts) / Qnat (length steps);
     max_words_in_any_step :=
       if bool_decide (steps = []) then O else foldr Nat.max O counts;
     adherence_rate :=
       if bool_decide (steps = []) then 1
       else Qnat (within_limit max_words_per_step counts) / Qnat (length steps);
     step_counts := counts |}.

(** The body of the loop of [format_to_numbered_steps]: the step without
    its marker, stripped. *)
Definition numbered_content (step : str) : str :=
  match marker_match step with
  | Some _ => strip (drop (length (marker_of step)) step)
  | None => strip step
  end.

(** [f"{i}. {content}"] *)
Definition numbered_step (i : nat) (step : str) : str :=
  str_of_nat i ++ lit ". " ++ numbered_content step.

Definition format_to_numbered_steps (reasoning : str) : str :=
  let steps := _split_into_steps reasoning in
  let numbered_steps := imap (fun i step => numbered_step (S i) step) steps in
  join [nl] numbered_steps.

End Format.

(** ** The collaborators and their effects *)

Module Effects.
Import Py.

Inductive exn :=
| ValueError (msg : string)
| KeyError (key : string)
| TypeError (msg : string)
| BackendError (detail : str)
| StoreError (detail : str).

(** The justification returned with the selected approach. The two
    messages that interpolate numbers keep them as arguments. *)
Inductive Justification :=
| Fixed (text : string)
| ComplexityAbove (score threshold : Z)
| AccuracyBelow (accuracy threshold : Q).

(** The [metadata] dictionary handed to [record_inference]. *)
Record Metadata := {
  m_complexity : Z;
  m_approach_reason : Justification;
  m_adherence : option Format.Adherence
}.

(** One call of [AnalyticsService.record_inference]. *)
Record InferenceEvent := {
  e_problem : str;
  e_domain : str;
  e_approach : str;
  e_word_limit : option Z;
  e_tokens_used : nat;
  e_execution_time : Q;
  e_reasoning : str;
  e_answer : str;
  e_metadata : Metadata
}.

(** One row of [AnalyticsService.get_performance_by_domain]. *)
Record PerformanceRow := {
  p_domain : str;
  p_approach : str;
  p_avg_tokens : Q;
  p_avg_time_ms : Q;
  p_accuracy : option Q;
  p_count : nat
}.

(** One entry of [ExampleDatabase.get_examples]. *)
Record Example := {
  x_problem : str;
  x_reasoning : str;
  x_answer : str
}.

Record Message := { role : str; content : str }.

(** The arguments of [UnifiedLLMClient.chat]. *)
Record ChatRequest := {
  q_messages : list Message;
  q_model : option str;
  q_max_tokens : option Z;
  q_temperature : option Q
}.

(** What [UnifiedLLMClient.chat] returns. *)
Record ChatResponse := {
  r_content : str;
  r_input_tokens : Z;
  r_output_tokens : Z
}.

(** What the collaborators answer. The model backend is asked its
    [n]-th request; the statistics are computed by the store from the
    events recorded so far; the clock and the identifier source are read
    for the [n]-th time. The backend and the two stores may raise: their
    methods run a request or a database session with no [except] of
    their own, so the exception reaches the caller. [commit_error] is the
    exception, if any, with which the analytics store refuses an event. *)
Record Env := {
  llm_chat : nat -> ChatRequest -> exn + ChatResponse;
  get_performance_by_domain :
    list InferenceEvent -> str -> exn + list PerformanceRow;
  get_examples : str -> str -> exn + list Example;
  commit_error : list InferenceEvent -> InferenceEvent -> option exn;
  time_time : nat -> Q;
  uuid4 : nat -> str
}.

(** What has happened so far. *)
Record World := {
  recorded : list InferenceEvent;
  chats : list ChatRequest;
  performance_queries : list str;
  clock_reads : nat;
  uuids_drawn : nat
}.

(** Computations that may raise and that act on the world. *)
Definition M (A : Type) : Type := World -> (exn + A) * World.

#[global] Instance M_ret : MRet M := fun A x w => (inr x, w).
#[global] Instance M_bind : MBind M := fun A B f m w =>
  match m w with
  | (inl e, w') => (inl e, w')
  | (inr a, w') => f a w'
  end.

Definition raise {A} (e : exn) : M A := fun w => (inl e, w).

(** The two logs the properties speak of, requests sent to the backend
    and events recorded by the store, are the same in both worlds. *)
Definition same_logs (w w1 : World) : Prop :=
  chats w1 = chats w /\ recorded w1 = recorded w.

(** The same collaborators, the backend reporting other usage counts. *)
Definition report_usage (usage : nat -> ChatRequest -> Z * Z) (env : Env)
  : Env := {|
  llm_chat := fun n q =>
    match llm_chat env n q with
    | inl e => inl e
    | inr response =>
        inr {| r_content := r_content response;
               r_input_tokens := fst (usage n q);
               r_output_tokens := snd (usage n q) |}
    end;
  get_performance_by_domain := get_performance_by_domain env;
  get_examples := get_examples env;
  commit_error := commit_error env;
  time_time := time_time env;
  uuid4 := uuid4 env
|}.

Section Collaborators.
Variable env : Env.

(** [await self.llm_client.chat(...)]; a failure of the backend is
    re-raised as it is. *)
Definition chat_backend (q : ChatRequest) : M ChatResponse := fun w =>
  let w' := {| recorded := recorded w; chats := chats w ++ [q];
               performance_queries := performance_queries w;
               clock_reads := clock_reads w; uuids_drawn := uuids_drawn w |} in
  (llm_chat env (length (chats w)) q, w').

(** [await self.analytics.get_performance_by_domain(domain)]; a failure
    of the store is passed on, the query has been made. *)
Definition query_performance (domain : str) : M (list PerformanceRow) := fun w =>
  (get_performance_by_domain env (recorded w) domain,
   {| recorded := recorded w; chats := chats w;
      performance_queries := performance_queries w ++ [domain];
      clock_reads := clock_reads w; uuids_drawn := uuids_drawn w |}).

(** [await self.analytics.record_inference(...)]: the event is in the
    store when the commit has gone through; a failure of [session.add]
    or [session.commit] is passed on and leaves the store as it was. *)
Definition record_inference (e : InferenceEvent) : M unit := fun w =>
  match commit_error env (recorded w) e with
  | Some err => (inl err, w)
  | None =>
      (inr tt,
       {| recorded := recorded w ++ [e]; chats := chats w;
          performance_queries := performance_queries w;
          clock_reads := clock_reads w; uuids_drawn := uuids_drawn w |})
  end.

(** [await self.example_db.get_examples(domain, approach)]; a failure of
    the store is passed on. *)
Definition fetch_examples (domain approach : str) : M (list Example) :=
  fun w => (get_examples env domain approach, w).

(** [time.time()] *)
Definition now : M Q := fun w =>
  (inr (time_time env (clock_reads w)),
   {| recorded := recorded w; chats := chats w;
      performance_queries := performance_queries w;
      clock_reads := S (clock_reads w); uuids_drawn := uuids_drawn w |}).

(** [uuid.uuid4()] *)
Definition draw_uuid : M str := fun w =>
  (inr (uuid4 env (uuids_drawn w)),
   {| recorded := recorded w; chats := chats w;
      performance_queries := performance_queries w;
      clock_reads := clock_reads w; uuids_drawn := S (uuids_drawn w) |}).

End Collaborators.

End Effects.

(** ** analytics.py: the correctness check *)

Module Analytics.
Import Py.

Section Correctness.
Context `{CaseTable}.

(** [AnalyticsService._check_correctness]; [None] for an argument is
    Python's [None], [Some 1] and [Some 0] are the two verdicts. *)
Definition _check_correctness (answer expected_answer : option str)
  : option Z :=
  match answer, expected_answer with
  | Some (a :: answer'), Some (e :: expected') =>
      if bool_decide (lower (strip (a :: answer'))
                      = lower (strip (e :: expected')))
      then Some 1%Z else Some 0%Z
  | _, _ => None
  end.

End Correctness.

End Analytics.

(** ** reasoning.py *)

Module Reasoning.
Import Py Effects.

Record Preferences := {
  complexity_threshold : Z;
  accuracy_threshold : Q
}.

(** The attribute dictionary of a [ReasoningSelector]. *)
Record ReasoningSelector := {
  default_preferences : gmap (list N) Preferences
}.

(** [ReasoningSelector.__init__] *)
Definition init : ReasoningSelector := {|
  default_preferences := list_to_map
    [(lit "math", {| complexity_threshold := 7; accuracy_threshold := 85 # 100 |});
     (lit "code", {| complexity_threshold := 8; accuracy_threshold := 9 # 10 |});
     (lit "physics", {| complexity_threshold := 7; accuracy_threshold := 85 # 100 |});
     (lit "chemistry", {| complexity_threshold := 7; accuracy_threshold := 85 # 100 |});
     (lit "biology", {| complexity_threshold := 6; accuracy_threshold := 85 # 100 |});
     (lit "logic", {| complexity_threshold := 6; accuracy_threshold := 9 # 10 |});
     (lit "puzzle", {| complexity_threshold := 7; accuracy_threshold := 85 # 100 |});
     (lit "default", {| complexity_threshold := 6; accuracy_threshold := 8 # 10 |})]
|}.

Definition CoD : str := lit "CoD".
Definition CoT : str := lit "CoT".

Definition default_reason : string := "Default to Chain-of-Draft for efficiency".

(** [a < b] on floats. *)
Definition Qltb (a b : Q) : bool := negb (Qle_bool b a).

(** [next((p["accuracy"] for p in domain_performance
          if p["approach"] == "CoD"), None)] *)
Definition cod_accuracy (domain_performance : list PerformanceRow) : option Q :=
  match filter (fun p => p_approach p = CoD) domain_performance with
  | p :: _ => p_accuracy p
  | [] => None
  end.

Section Selector.
Context `{CaseTable}.
Variable env : Env.
Variable self : ReasoningSelector.

(** [self.default_preferences.get(domain.lower(),
                                  self.default_preferences["default"])]:
    the fallback is looked up before [get] is called. *)
Definition preferences_for (domain : str) : M Preferences :=
  match default_preferences self !! lit "default" with
  | None => raise (KeyError "default")
  | Some fallback =>
      mret (default fallback (default_preferences self !! lower domain))
  end.

Definition select_approach (problem domain : str) (complexity_score : option Z)
  : M (str * Justification) :=
  prefs ← preferences_for domain;
  let complexity_score :=
    match complexity_score with
    | Some score => score
    | None => Complexity.estimate_complexity Complexity.init problem domain
    end in
  if (complexity_score >? complexity_threshold prefs)%Z then
    mret (CoT, ComplexityAbove complexity_score (complexity_threshold prefs))
  else
    domain_performance ← query_performance env domain;
    match cod_accuracy domain_performance with
    | Some accuracy =>
        if Qltb accuracy (accuracy_threshold prefs)
        then mret (CoT, AccuracyBelow accuracy (accuracy_threshold prefs))
        else mret (CoD, Fixed default_reason)
    | None => mret (CoD, Fixed default_reason)
    end.

End Selector.

(** [update_preferences]: the selector after the call, or the [KeyError]
    of [self.default_preferences["default"]] when an entry has to be
    created and there is no default to copy. *)
Definition update_preferences (self : ReasoningSelector) (domain : str)
    (complexity_threshold' : option Z) (accuracy_threshold' : option Q)
  : Effects.exn + ReasoningSelector :=
  let created :=
    match default_preferences self !! domain with
    | Some _ => Some (default_preferences self)
    | None =>
        match default_preferences self !! lit "default" with
        | Some fallback => Some (<[domain := fallback]> (default_preferences self))
        | None => None
        end
    end in
  match created with
  | None => inl (Effects.KeyError "default")
  | Some prefs =>
      let prefs :=
        match complexity_threshold' with
        | Some c =>
            alter (fun p => {| complexity_threshold := c;
                               accuracy_threshold := accuracy_threshold p |})
                  domain prefs
        | None => prefs
        end in
      let prefs :=
        match accuracy_threshold' with
        | Some a =>
            alter (fun p => {| complexity_threshold := complexity_threshold p;
                               accuracy_threshold := a |})
                  domain prefs
        | None => prefs
        end in
      inr {| default_preferences := prefs |}
  end.

(** [get_preferences]: with a non-empty [domain] the entry of the domain
    or the default entry (looked up first); otherwise the whole
    dictionary. *)
Definition get_preferences (self : ReasoningSelector) (domain : option str)
  : Effects.exn + (Preferences + gmap (list N) Preferences) :=
  match domain with
  | Some (c :: d) =>
      match default_preferences self !! lit "default" with
      | None => inl (Effects.KeyError "default")
      | Some fallback =>
          inr (inl (default fallback (default_preferences self !! (c :: d))))
      end
  | _ => inr (inr (default_preferences self))
  end.

(** The ["user"] entry of the dictionaries built by [create_cod_prompt]
    and [create_cot_prompt] (the same code in both). The ["system"] entry
    is never handed to the backend and is left out. *)
Definition example_text (examples : list Example) : str :=
  fold_left
    (fun text example =>
       text ++ [nl] ++ lit "Problem: " ++ x_problem example
            ++ [nl] ++ lit "Solution:" ++ [nl] ++ x_reasoning example
            ++ [nl] ++ lit "####" ++ [nl] ++ x_answer example ++ [nl])
    examples [].

Definition prompt_user (problem : str) (examples : list Example) : str :=
  let user_prompt := lit "Problem: " ++ problem in
  if nonempty (example_text examples)
  then example_text examples ++ [nl] ++ user_prompt
  else user_prompt.

End Reasoning.

(** ** client.py: [ChainOfDraftClient] *)

Module Client.
Import Py Effects Reasoning.

(** The settings dictionary. The keys seeded by [default_settings] are
    always present; ["model"], ["approach"] and ["temperature"] may be
    absent (outer [None]). A value may itself be Python's [None]. *)
Record Settings := {
  max_words_per_step : option Z;
  enforce_format : bool;
  adaptive_word_limit : bool;
  track_analytics : bool;
  max_tokens : option Z;
  model : option (option str);
  approach : option (option str);
  temperature : option (option Q)
}.

(** Keyword arguments: every key may be absent. *)
Record Kwargs := {
  kw_max_words_per_step : option (option Z);
  kw_enforce_format : option bool;
  kw_adaptive_word_limit : option bool;
  kw_track_analytics : option bool;
  kw_max_tokens : option (option Z);
  kw_model : option (option str);
  kw_approach : option (option str);
  kw_temperature : option (option Q);
  kw_domain : option str
}.

Definition no_kwargs : Kwargs := {|
  kw_max_words_per_step := None; kw_enforce_format := None;
  kw_adaptive_word_limit := None; kw_track_analytics := None;
  kw_max_tokens := None; kw_model := None; kw_approach := None;
  kw_temperature := None; kw_domain := None
|}.

Definition default_settings : Settings := {|
  max_words_per_step := Some 8%Z;
  enforce_format := true;
  adaptive_word_limit := true;
  track_analytics := true;
  max_tokens := Some 200000%Z;
  model := None;
  approach := None;
  temperature := None
|}.

(** [{**settings, **kwargs}] *)
Definition override (settings : Settings) (kwargs : Kwargs) : Settings := {|
  max_words_per_step :=
    default (max_words_per_step settings) (kw_max_words_per_step kwargs);
  enforce_format := default (enforce_format settings) (kw_enforce_format kwargs);
  adaptive_word_limit :=
    default (adaptive_word_limit settings) (kw_adaptive_word_limit kwargs);
  track_analytics :=
    default (track_analytics settings) (kw_track_analytics kwargs);
  max_tokens := default (max_tokens settings) (kw_max_tokens kwargs);
  model := match kw_model kwargs with Some v => Some v | None => model settings end;
  approach :=
    match kw_approach kwargs with Some v => Some v | None => approach settings end;
  temperature :=
    match kw_temperature kwargs with
    | Some v => Some v
    | None => temperature settings
    end
|}.

Record ChainOfDraftClient := {
  settings : Settings;
  complexity_estimator : Complexity.ComplexityEstimator;
  reasoning_selector : ReasoningSelector
}.

(** [ChainOfDraftClient.__init__] with its keyword arguments. *)
Definition init (kwargs : Kwargs) : ChainOfDraftClient := {|
  settings := override default_settings kwargs;
  complexity_estimator := Complexity.init;
  reasoning_selector := Reasoning.init
|}.

(** The dictionary returned by [solve_with_reasoning]. *)
Record Solution := {
  reasoning_steps : str;
  final_answer : str;
  token_count : nat;
  s_approach : str;
  s_complexity : Z;
  word_limit : option Z
}.

Definition no_answer : str := lit "No clear answer found".

(** Lines 430 to 434: the split of the response at the separator. *)
Definition extract (full_response : str) : str * str :=
  let parts := split_on (lit "####") full_response in
  let reasoning := strip (default [] (parts !! 0%nat)) in
  let answer :=
    match parts !! 1%nat with
    | Some part => strip part
    | None => no_answer
    end in
  (reasoning, answer).

(** Lines 406 to 410: the word limit. *)
Definition resolve_word_limit (local_settings : Settings) (approach : str)
    (complexity : Z) : option Z :=
  if adaptive_word_limit local_settings && bool_decide (approach = CoD)
  then Some complexity
  else max_words_per_step local_settings.

(** Lines 436 to 441. With the limit [None] the two comparisons
    [len(words) <= None] and [count <= None] raise as soon as there is a
    step to compare. *)
Definition enforce_and_analyze (reasoning : str) (word_limit : option Z)
  : M (str * option Format.Adherence) :=
  match word_limit with
  | Some n =>
      let reasoning := Format.enforce_word_limit reasoning n in
      mret (reasoning, Some (Format.analyze_adherence reasoning n))
  | None =>
      match Format._split_into_steps reasoning with
      | [] => mret ([], Some (Format.analyze_adherence [] 0))
        (* no step: the limit is never looked at *)
      | _ :: _ => raise (TypeError "'<=' not supported between 'int' and 'NoneType'")
      end
  end.

Section Orchestrator.
Context `{CaseTable}.
Variable env : Env.
Variable self : ChainOfDraftClient.

(** [domain] is a parameter of the method: a ["domain"] key among the
    keyword arguments, beside the positional argument, is rejected when
    the call is made, before the body runs. *)
Definition solve_with_reasoning (problem domain : str) (kwargs : Kwargs)
  : M Solution :=
  match kw_domain kwargs with
  | Some _ => raise (TypeError "got multiple values for argument 'domain'")
  | None =>
  start_time ← now env;
  let local_settings := override (settings self) kwargs in
  let complexity :=
    Complexity.estimate_complexity (complexity_estimator self) problem domain in
  '(approach, approach_reason) ←
    match approach local_settings with
    | Some (Some (c :: forced)) => mret (c :: forced, Fixed "Manually specified")
    | _ => select_approach env (reasoning_selector self) problem domain
             (Some complexity)
    end;
  let word_limit := resolve_word_limit local_settings approach complexity in
  examples ← fetch_examples env domain approach;
  let prompt := prompt_user problem examples in
  response ← chat_backend env {|
    q_messages := [{| role := lit "user"; content := prompt |}];
    q_model := default (Some (lit "claude-3-7-sonnet-latest")) (model local_settings);
    q_max_tokens := max_tokens local_settings;
    q_temperature := default (Some (7 # 10)) (temperature local_settings) |};
  let full_response := r_content response in
  let '(reasoning, answer) := extract full_response in
  '(reasoning, adherence) ←
    (if enforce_format local_settings && bool_decide (approach = CoD)
     then enforce_and_analyze reasoning word_limit
     else mret (reasoning, None));
  (if track_analytics local_settings then
     end_time ← now env;
     record_inference env {|
       e_problem := problem; e_domain := domain; e_approach := approach;
       e_word_limit := word_limit;
       e_tokens_used := length (split full_response);
       e_execution_time := (end_time - start_time) * 1000;
       e_reasoning := reasoning; e_answer := answer;
       e_metadata := {| m_complexity := complexity;
                        m_approach_reason := approach_reason;
                        m_adherence := adherence |} |}
   else mret tt);;
  mret {| reasoning_steps := reasoning; final_answer := answer;
          token_count := length (split full_response);
          s_approach := approach; s_complexity := complexity;
          word_limit := word_limit |}
  end.

(** [model or self.settings["model"]] *)
Definition model_or_setting (model : option str) : M (option str) :=
  match model with
  | Some (c :: m) => mret (Some (c :: m))
  | _ => match Client.model (settings self) with
         | Some v => mret v
         | None => raise (KeyError "model")
         end
  end.

(** [await self.solve_with_reasoning(problem, domain, model=..., **kwargs)]
    from the three public interfaces: [model] joins the keyword
    arguments, which are passed on as they are, a ["domain"] key
    included. *)
Definition call_solve (problem domain : str) (model : option str)
    (kwargs : Kwargs) : M Solution :=
  solve_with_reasoning problem domain {|
    kw_max_words_per_step := kw_max_words_per_step kwargs;
    kw_enforce_format := kw_enforce_format kwargs;
    kw_adaptive_word_limit := kw_adaptive_word_limit kwargs;
    kw_track_analytics := kw_track_analytics kwargs;
    kw_max_tokens := kw_max_tokens kwargs;
    kw_model := Some model;
    kw_approach := kw_approach kwargs;
    kw_temperature := kw_temperature kwargs;
    kw_domain := kw_domain kwargs |}.

(** The dictionary returned by [completions]. *)
Record Completion := {
  c_id : str;
  c_created : Z;
  c_model : option str;
  c_text : str;
  c_prompt_tokens : nat;
  c_completion_tokens : nat;
  c_total_tokens : nat;
  c_reasoning : str;
  c_approach : str
}.

Definition completions (model : option str) (prompt : option str)
    (kwargs : Kwargs) : M Completion :=
  match prompt with
  | Some (c :: rest) =>
      let prompt := c :: rest in
      let problem := prompt in
      let domain := default (lit "general") (kw_domain kwargs) in
      m ← model_or_setting model;
      result ← call_solve problem domain m kwargs;
      id ← draw_uuid env;
      created ← now env;
      m' ← model_or_setting model;
      mret {| c_id := lit "cod-" ++ id;
              c_created := (Qnum created ÷ Z.pos (Qden created))%Z;
              c_model := m';
              c_text := final_answer result;
              c_prompt_tokens := length (split prompt);
              c_completion_tokens := token_count result;
              c_total_tokens := length (split prompt) + token_count result;
              c_reasoning := reasoning_steps result;
              c_approach := s_approach result |}
  | _ => raise (ValueError "Prompt is required")
  end.

(** [next((m["content"] for m in reversed(messages)
          if m["role"] == "user"), "")] *)
Definition last_user_message (messages : list Message) : str :=
  match filter (fun m => role m = lit "user") (rev messages) with
  | m :: _ => content m
  | [] => []
  end.

(** [sum(len(m.get("content", "").split()) for m in messages)] *)
Definition message_words (messages : list Message) : nat :=
  foldr Nat.add O (map (fun m => length (split (content m))) messages).

(** [f"{result['reasoning_steps']}\n\n####\n{result['final_answer']}"] *)
Definition render (result : Solution) : str :=
  reasoning_steps result ++ [nl; nl] ++ lit "####" ++ [nl] ++ final_answer result.

(** The dictionary returned by [chat]. *)
Record ChatCompletion := {
  cc_id : str;
  cc_created : Z;
  cc_model : option str;
  cc_content : str;
  cc_prompt_tokens : nat;
  cc_completion_tokens : nat;
  cc_total_tokens : nat
}.

Definition chat (model : option str) (messages : option (list Message))
    (kwargs : Kwargs) : M ChatCompletion :=
  match messages with
  | Some (m0 :: ms) =>
      let messages := m0 :: ms in
      match last_user_message messages with
      | c :: rest =>
          let last_user_msg := c :: rest in
          let domain := default (lit "general") (kw_domain kwargs) in
          m ← model_or_setting model;
          result ← call_solve last_user_msg domain m kwargs;
          id ← draw_uuid env;
          created ← now env;
          m' ← model_or_setting model;
          mret {| cc_id := lit "cod-" ++ id;
                  cc_created := (Qnum created ÷ Z.pos (Qden created))%Z;
                  cc_model := m';
                  cc_content := render result;
                  cc_prompt_tokens := message_words messages;
                  cc_completion_tokens := token_count result;
                  cc_total_tokens := message_words messages + token_count result |}
      | [] => raise (ValueError "No user message found in the provided messages")
      end
  | _ => raise (ValueError "Messages are required")
  end.

(** The dictionary returned by [messages]. *)
Record AnthropicMessage := {
  am_id : str;
  am_model : option str;
  am_text : str;
  am_input_tokens : nat;
  am_output_tokens : nat;
  am_reasoning_approach : str;
  am_word_limit : option Z
}.

Definition messages (model : option str) (msgs : option (list Message))
    (kwargs : Kwargs) : M AnthropicMessage :=
  match msgs with
  | Some (m0 :: ms) =>
      let msgs := m0 :: ms in
      match last_user_message msgs with
      | c :: rest =>
          let last_user_msg := c :: rest in
          let domain := default (lit "general") (kw_domain kwargs) in
          m ← model_or_setting model;
          result ← call_solve last_user_msg domain m kwargs;
          id ← draw_uuid env;
          m' ← model_or_setting model;
          mret {| am_id := lit "msg_" ++ id;
                  am_model := m';
                  am_text := render result;
                  am_input_tokens := message_words msgs;
                  am_output_tokens := token_count result;
                  am_reasoning_approach := s_approach result;
                  am_word_limit := word_limit result |}
      | [] => raise (ValueError "No user message found in the provided messages")
      end
  | _ => raise (ValueError "Messages are required")
  end.

End Orchestrator.


End Client.

(** ** The specification's wording, and sample data *)

Module Spec.
Import Py Client.

(** The split of the response in the words of the specification:
    everything before the first occurrence of the separator is the
    reasoning, everything after it, stripped, is the answer; without a
    separator the whole text is the reasoning and the answer is the
    sentinel. *)
Definition spec_extract (text : list N) : list N * list N :=
  match find (lit "####") text with
  | Some i => (take i text, strip (drop (i + 4) text))
  | None => (text, no_answer)
  end.

End Spec.

Module Samples.
Import Py Effects Reasoning Client.

(** ["1. The quick brown fox jumps over the lazy dog today"] *)
Definition fox : list N :=
  lit "1. The quick brown fox jumps over the lazy dog today".

(** ["1. a  b"]: two words after the marker, two spaces between them. *)
Definition spaced : list N := lit "1. a  b".

(** ["foo Step bar\n1: baz"] *)
Definition two_lines : list N := lit "foo Step bar" ++ [nl] ++ lit "1: baz".

Definition two_separators : list N := lit "a####b####c".

(** A backend that always answers
    ["1. twenty minus twelve is eight #### 8"] and reports no usage, an
    empty store, no examples. *)
Definition quiet_env : Env := {|
  llm_chat := fun _ _ =>
    inr {| r_content := lit "1. twenty minus twelve is eight #### 8";
           r_input_tokens := 0; r_output_tokens := 0 |};
  get_performance_by_domain := fun _ _ => inr [];
  get_examples := fun _ _ => inr [];
  commit_error := fun _ _ => None;
  time_time := fun n => inject_Z (Z.of_nat n);
  uuid4 := fun _ => lit "0"
|}.

(** A store in which Chain of Draft has been right half of the time. *)
Definition poor_history_env : Env := {|
  llm_chat := llm_chat quiet_env;
  get_performance_by_domain := fun _ domain =>
    inr [{| p_domain := domain; p_approach := CoD; p_avg_tokens := 40;
            p_avg_time_ms := 900; p_accuracy := Some (1 # 2); p_count := 4 |}];
  get_examples := get_examples quiet_env;
  commit_error := commit_error quiet_env;
  time_time := time_time quiet_env;
  uuid4 := uuid4 quiet_env
|}.

Definition fresh_world : World := {|
  recorded := []; chats := []; performance_queries := [];
  clock_reads := 0; uuids_drawn := 0
|}.

(** The keyword arguments [approach="CoD", max_words_per_step=5]. *)
Definition forced_cod_limit_5 : Kwargs := {|
  kw_max_words_per_step := Some (Some 5%Z); kw_enforce_format := None;
  kw_adaptive_word_limit := None; kw_track_analytics := None;
  kw_max_tokens := None; kw_model := None;
  kw_approach := Some (Some CoD);
  kw_temperature := None; kw_domain := None
|}.

End Samples.

Module Scenarios.
Import Py Effects Reasoning Client Samples.


(** One row of statistics for the domain ["math"]. *)
Definition history_row (approach : str) (accuracy : option Q) : PerformanceRow :=
  {| p_domain := lit "math"; p_approach := approach; p_avg_tokens := 40;
     p_avg_time_ms := 900; p_accuracy := accuracy; p_count := 4 |}.

(** A store that answers every query for statistics with [rows]. *)
Definition history_env (rows : list PerformanceRow) : Env := {|
  llm_chat := llm_chat quiet_env;
  get_performance_by_domain := fun _ _ => inr rows;
  get_examples := get_examples quiet_env;
  commit_error := commit_error quiet_env;
  time_time := time_time quiet_env;
  uuid4 := uuid4 quiet_env
|}.

(** Chain of Thought has done badly, Chain of Draft well. *)
Definition cod_proven : list PerformanceRow :=
  [history_row CoT (Some (1 # 10)); history_row CoD (Some (99 # 100))].

(** Chain of Thought has done well, Chain of Draft badly. *)
Definition cod_poor : list PerformanceRow :=
  [history_row CoT (Some (99 # 100)); history_row CoD (Some (1 # 2))].


(** The keyword argument [approach="CoT"]. *)
Definition forced_cot : Kwargs := {|
  kw_max_words_per_step := None; kw_enforce_format := None;
  kw_adaptive_word_limit := None; kw_track_analytics := None;
  kw_max_tokens := None; kw_model := None;
  kw_approach := Some (Some CoT);
  kw_temperature := None; kw_domain := None
|}.

(** The keyword argument [domain="math"]. *)
Definition domain_math : Kwargs := {|
  kw_max_words_per_step := None; kw_enforce_format := None;
  kw_adaptive_word_limit := None; kw_track_analytics := None;
  kw_max_tokens := None; kw_model := None; kw_approach := None;
  kw_temperature := None; kw_domain := Some (lit "math")
|}.

(** A question, its answer, and a remark of the system. *)
Definition conversation : list Message :=
  [{| role := lit "user"; content := lit "2 + 2?" |};
   {| role := lit "assistant"; content := lit "4" |};
   {| role := lit "user"; content := lit "and 3 + 3?" |};
   {| role := lit "system"; content := lit "be brief" |}].

End Scenarios.

(** * Properties *)

(** ** Python strings *)

Module PyFacts.
Import Py.

Lemma is_space_listed c :
  is_space c = true -> existsb (N.eqb c) space_chars = true.
Proof.
  unfold is_space, space_chars. cbn [existsb].
  rewrite !orb_true_iff, !andb_true_iff, !N.leb_le, !N.eqb_eq. lia.
Qed.

Lemma decimal_not_space c : is_decimal c = true -> is_space c = false.
Proof.
  intros Hd. destruct (is_space c) eqn:Hs; [|done].
  apply is_space_listed, existsb_exists in Hs as (x & Hx & ->%N.eqb_eq).
  assert (forallb (fun x => negb (is_decimal x)) space_chars = true) as Hall
    by (vm_compute; reflexivity).
  rewrite forallb_forall in Hall. apply Hall in Hx.
  rewrite Hd in Hx. done.
Qed.

(** *** [split] *)

Lemma split_cons_space c r : is_space c = true -> split (c :: r) = split r.
Proof. intros Hc. simpl. by rewrite Hc. Qed.

Lemma split_cons_nonspace c r : is_space c = false -> split (c :: r) <> [].
Proof.
  intros Hc. simpl. rewrite Hc.
  destruct r as [|c' r']; [done|].
  destruct (is_space c'); [done|]. by destruct (split (c' :: r')).
Qed.



Lemma split_words s : Forall is_word (split s).
Proof.
  induction s as [|c r IH]; [constructor|].
  simpl. destruct (is_space c) eqn:Hc; [done|].
  destruct r as [|c' r'].
  { repeat constructor; done. }
  destruct (is_space c') eqn:Hc'.
  { constructor; [|done]. repeat constructor; done. }
  destruct (split (c' :: r')) as [|w ws]; [repeat constructor; done|].
  inversion IH as [|? ? [_ Hw] Hws]; subst.
  constructor; [|done]. split; [done|]. by constructor.
Qed.

(** A word followed by whitespace, or by nothing, is split off whole. *)
Lemma split_word_app w rest :
  is_word w ->
  match rest with [] => True | c :: _ => is_space c = true end ->
  split (w ++ rest) = w :: split rest.
Proof.
  intros [Hne Hw] Hrest. induction Hw as [|c w Hc Hw IH]; [done|].
  destruct w as [|c' w'].
  - simpl. rewrite Hc. destruct rest as [|c'' rest']; [done|].
    by rewrite Hrest.
  - assert (is_space c' = false) as Hc' by (by inversion Hw).
    change ((c :: c' :: w') ++ rest) with (c :: (c' :: w') ++ rest).
    change (split (c :: (c' :: w') ++ rest)) with
      (if is_space c then split ((c' :: w') ++ rest)
       else if is_space c' then [c] :: split ((c' :: w') ++ rest)
       else match split ((c' :: w') ++ rest) with
            | w :: ws => (c :: w) :: ws
            | [] => [[c]]
            end).
    rewrite Hc, Hc', IH; done.
Qed.

Lemma split_join_words ws :
  Forall is_word ws -> split (join [32] ws) = ws.
Proof.
  induction 1 as [|w ws Hw Hws IH]; [done|].
  destruct ws as [|w' ws'].
  - simpl. rewrite <- (app_nil_r w) at 1. by rewrite split_word_app.
  - change (join [32] (w :: w' :: ws')) with (w ++ 32 :: join [32] (w' :: ws')).
    rewrite split_word_app; [|done|done].
    rewrite split_cons_space by done. by rewrite IH.
Qed.

(** *** [strip] *)

Lemma split_lstrip s : split (lstrip s) = split s.
Proof.
  induction s as [|c r IH]; [done|]. simpl lstrip.
  destruct (is_space c) eqn:Hc; [|done]. by rewrite split_cons_space.
Qed.

Lemma rstrip_nil_split s : rstrip s = [] -> split s = [].
Proof.
  induction s as [|c r IH]; [done|]. simpl rstrip.
  destruct (rstrip r) eqn:Hr; [|done].
  destruct (is_space c) eqn:Hc; [|done].
  intros _. rewrite split_cons_space by done. by apply IH.
Qed.

Lemma rstrip_head s c r :
  rstrip s = c :: r -> exists r', s = c :: r'.
Proof.
  destruct s as [|c' r']; [done|]. simpl.
  destruct (rstrip r'); [destruct (is_space c')|]; intros [= <- _]; eauto.
Qed.

Lemma split_rstrip s : split (rstrip s) = split s.
Proof.
  induction s as [|c r IH]; [done|].
  simpl rstrip. destruct (rstrip r) as [|c' r'] eqn:Hr.
  - pose proof (rstrip_nil_split r Hr) as Hnil.
    destruct (is_space c) eqn:Hc.
    + by rewrite split_cons_space, Hnil.
    + simpl. rewrite Hc. destruct r as [|c'' r'']; [done|].
      rewrite Hnil. by destruct (is_space c'').
  - destruct (rstrip_head _ _ _ Hr) as [r'' ->].
    simpl in *. destruct (is_space c); [done|].
    destruct (is_space c'); by rewrite IH.
Qed.

Lemma split_strip s : split (strip s) = split s.
Proof. unfold strip. by rewrite split_rstrip, split_lstrip. Qed.

End PyFacts.

(** ** complexity.py *)

Module ComplexityClaims.
Import Py Complexity.

Lemma clamp_range z : (3 <= clamp z <= 10)%Z.
Proof. unfold clamp. lia. Qed.

Lemma Qnat_nonneg n : (0 <= Qnat n)%Q.
Proof. unfold Qnat. rewrite <- (Zle_Qle 0). lia. Qed.

Lemma Qnat_div_nonneg n d : (0 < d)%Q -> (0 <= Qnat n / d)%Q.
Proof.
  intros Hd. apply Qle_shift_div_l; [done|].
  rewrite Qmult_0_l. apply Qnat_nonneg.
Qed.

Lemma count_factor_ge_1 n : (1 <= 1 + Qnat n * (2 # 10))%Q.
Proof.
  rewrite <- (Qplus_0_r 1) at 1. apply Qplus_le_r.
  apply Qmult_le_0_compat; [apply Qnat_nonneg|done].
Qed.

Lemma Qdiv_lt_iff x d y : (0 < d)%Q -> (x / d < y)%Q <-> (x < y * d)%Q.
Proof.
  intros Hd. split.
  - intros Hlt.
    assert (x == x / d * d)%Q as ->
      by (rewrite Qmult_comm, Qmult_div_r; [done|by apply Qnot_eq_sym, Qlt_not_eq]).
    by apply Qmult_lt_compat_r.
  - intros Hlt. by apply Qlt_shift_div_r.
Qed.

Lemma Qmin_below x c y : (y <= c)%Q -> (Qmin x c < y)%Q <-> (x < y)%Q.
Proof.
  intros Hc. rewrite Q.min_lt_iff. split; [|by left].
  intros [Hx|Hlt]; [done|]. by apply Qlt_not_le in Hlt.
Qed.

Lemma Qnat_lt a b : (Qnat a < Qnat b)%Q <-> (a < b)%nat.
Proof. unfold Qnat. rewrite <- Zlt_Qlt. lia. Qed.

Section Factors.
Context `{CaseTable}.
Variable self : ComplexityEstimator.

(** C1. The estimate is an integer between 3 and 10, whatever the
    tables of the estimator, the problem and the domain; and it is a
    function of these alone: equal arguments give equal results. *)
Theorem estimate_complexity_range problem domain :
  (3 <= estimate_complexity self problem domain <= 10)%Z
  /\ forall problem' domain',
       problem' = problem -> domain' = domain ->
       estimate_complexity self problem' domain'
       = estimate_complexity self problem domain.
Proof.
  split; [apply clamp_range|]. by intros ? ? -> ->.
Qed.

Lemma length_factor_range problem : (0 <= length_factor problem <= 2)%Q.
Proof.
  unfold length_factor. split; [|apply Q.le_min_r].
  apply Q.min_glb; [|done]. by apply Qnat_div_nonneg.
Qed.

Lemma indicator_factor_of_range n : (1 <= indicator_factor_of n <= 18 # 10)%Q.
Proof.
  unfold indicator_factor_of. split; [|apply Q.le_min_r].
  apply Q.min_glb; [apply count_factor_ge_1|done].
Qed.

Lemma sentence_complexity_factor_range problem :
  (0 <= sentence_complexity_factor problem <= 15 # 10)%Q.
Proof.
  unfold sentence_complexity_factor. split; [|apply Q.le_min_r].
  apply Q.min_glb; [|done].
  apply Qle_shift_div_l; [done|]. rewrite Qmult_0_l.
  unfold words_per_sentence. apply Qnat_div_nonneg.
  unfold Qnat. rewrite <- (Zlt_Qlt 0). lia.
Qed.

Lemma length_factor_below_1 problem :
  (length_factor problem < 1)%Q <-> (length (split problem) < 50)%nat.
Proof.
  unfold length_factor. rewrite Qmin_below by done.
  rewrite Qdiv_lt_iff by done. rewrite Qmult_1_l.
  apply (Qnat_lt _ 50).
Qed.

Lemma sentence_complexity_factor_below_1 problem :
  (sentence_complexity_factor problem < 1)%Q
  <-> (length (split problem)
       < 15 * Nat.max (length (sentences problem)) 1)%nat.
Proof.
  unfold sentence_complexity_factor, words_per_sentence.
  rewrite Qmin_below by done.
  rewrite Qdiv_lt_iff by done. rewrite Qmult_1_l.
  rewrite Qdiv_lt_iff by (apply (Qnat_lt 0); lia).
  change 15%Q with (Qnat 15).
  assert (Qnat 15 * Qnat (Nat.max (length (sentences problem)) 1)
          == Qnat (15 * Nat.max (length (sentences problem)) 1))%Q as ->.
  { unfold Qnat. rewrite <- inject_Z_mult. by rewrite Nat2Z.inj_mul. }
  apply Qnat_lt.
Qed.

(** C6, as the code has it. The indicator factor lies in [1, 1.8] and the
    question factor is at least 1. The length factor lies in [0, 2] and
    is below 1 exactly when the text has fewer than 50 words; the
    sentence-complexity factor lies in [0, 1.5] and is below 1 exactly
    when the number of words is below 15 times the number of sentences
    (counted as 1 when there is none). The largest of the factors, which
    scales the base limit, is at least 1. *)
Theorem impact_factors_bounds problem domain :
  (1 <= indicator_factor self problem domain <= 18 # 10)%Q
  /\ (1 <= question_factor problem)%Q
  /\ (0 <= length_factor problem <= 2)%Q
  /\ ((length_factor problem < 1)%Q
      <-> (length (split problem) < 50)%nat)
  /\ (0 <= sentence_complexity_factor problem <= 15 # 10)%Q
  /\ ((sentence_complexity_factor problem < 1)%Q
      <-> (length (split problem)
           < 15 * Nat.max (length (sentences problem)) 1)%nat)
  /\ (1 <= impact_factor self problem domain)%Q.
Proof.
  split_and!; try apply indicator_factor_of_range;
    try apply length_factor_range;
    try apply sentence_complexity_factor_range;
    try apply length_factor_below_1;
    try apply sentence_complexity_factor_below_1.
  - apply count_factor_ge_1.
  - unfold impact_factor.
    eapply Qle_trans; [|apply Q.le_max_r].
    eapply Qle_trans; [|apply Q.le_max_l].
    apply indicator_factor_of_range.
Qed.

Lemma fold_count {A} (p : A -> bool) l a :
  fold_left (fun count x => if p x then S count else count) l a
  = (a + length (filter (fun x => p x = true) l))%nat.
Proof.
  revert a. induction l as [|x l IH]; intros a; simpl; [lia|].
  rewrite IH. destruct (p x) eqn:Hp.
  - rewrite filter_cons_True by done. simpl. lia.
  - rewrite filter_cons_False by congruence. done.
Qed.

Lemma round_proper x y : (x == y)%Q -> round x = round y.
Proof.
  intros Hxy. unfold round. rewrite (Qfloor_comp _ _ Hxy).
  assert (x - inject_Z (Qfloor y) == y - inject_Z (Qfloor y))%Q as Hd
    by (by rewrite Hxy).
  by rewrite (Qcompare_comp _ _ Hd _ _ (Qeq_refl (1 # 2))).
Qed.

Lemma Qmax_one_absorbed a b c d :
  (1 <= b)%Q ->
  (Qmax a (Qmax b (Qmax c d)) == Qmax a (Qmax b (Qmax c (Qmax d 1))))%Q.
Proof.
  intros Hb. apply Qle_antisym.
  - repeat apply Q.max_le_compat_l. apply Q.le_max_l.
  - assert (b <= Qmax a (Qmax b (Qmax c d)))%Q as HbX.
    { eapply Qle_trans; [|apply Q.le_max_r]. apply Q.le_max_l. }
    repeat apply Q.max_lub.
    + apply Q.le_max_l.
    + exact HbX.
    + eapply Qle_trans; [|apply Q.le_max_r].
      eapply Qle_trans; [|apply Q.le_max_r]. apply Q.le_max_l.
    + eapply Qle_trans; [|apply Q.le_max_r].
      eapply Qle_trans; [|apply Q.le_max_r]. apply Q.le_max_r.
    + by eapply Qle_trans.
Qed.

(** Where no domain adjustment applies, the breakdown and the estimate
    agree. *)
Lemma analyze_problem_agrees problem domain :
  domain_factor problem domain = 1%Q ->
  estimated_complexity (analyze_problem self problem domain)
  = estimate_complexity self problem domain.
Proof.
  intros Hdom. unfold analyze_problem, estimate_complexity, impact_factor.
  simpl. f_equal. apply round_proper. apply Qmult_comp; [done|].
  rewrite Hdom. unfold indicator_factor, indicator_count.
  rewrite fold_count. simpl.
  apply Qmax_one_absorbed, indicator_factor_of_range.
Qed.

End Factors.

(** C6 as stated fails: for the one-word problem ["hello"] the length
    factor is 1/50 and the sentence-complexity factor is 1/15. *)
Lemma short_problem_factors_below_one :
  length_factor (lit "hello") = (1 # 50)%Q
  /\ ~ (1 <= length_factor (lit "hello"))%Q
  /\ ~ (1 <= sentence_complexity_factor (lit "hello"))%Q.
Proof. vm_compute. split_and!; [done| |]; intros Hle; by apply Hle. Qed.

Lemma estimate_complexity_range_witness :
  (3 <= @estimate_complexity ascii_lower init (lit "prove it") (lit "math") <= 10)%Z
  /\ @estimate_complexity ascii_lower init (lit "prove" ++ lit " it") (lit "math")
     = @estimate_complexity ascii_lower init (lit "prove it") (lit "math").
Proof.
  destruct (@estimate_complexity_range ascii_lower init
              (lit "prove it") (lit "math")) as [Hrange Hdet].
  split; [exact Hrange|].
  apply Hdet; vm_compute; reflexivity.
Defined.

(** C7 fails on the code: [analyze_problem] leaves the domain factor out
    of its maximum. For the problem ["prove it"] in the domain ["math"]
    the estimate is 8 (base 6, domain factor 1.3) while the breakdown
    reports 6. *)
Lemma analyze_problem_misses_domain_factor :
  @estimate_complexity ascii_lower init (lit "prove it") (lit "math") = 8%Z
  /\ estimated_complexity
       (@analyze_problem ascii_lower init (lit "prove it") (lit "math")) = 6%Z
  /\ @domain_factor ascii_lower (lit "prove it") (lit "math") = (13 # 10)%Q.
Proof. vm_compute. done. Qed.

End ComplexityClaims.

(** ** format.py: the marker pattern *)

Module MarkerFacts.
Import Py PyFacts Format.

Lemma span_le p s : (span p s <= length s)%nat.
Proof. induction s as [|c r IH]; simpl; [lia|]. destruct (p c); simpl; lia. Qed.

Lemma span_take p s : Forall (fun c => p c = true) (take (span p s) s).
Proof.
  induction s as [|c r IH]; simpl; [constructor|].
  destruct (p c) eqn:Hc; simpl; by constructor.
Qed.

Lemma span_drop p s : span p (drop (span p s) s) = O.
Proof.
  induction s as [|c r IH]; simpl; [done|].
  destruct (p c) eqn:Hc; simpl; [done|]. by rewrite Hc.
Qed.

Lemma span_app p l k :
  Forall (fun c => p c = true) l -> span p (l ++ k) = (length l + span p k)%nat.
Proof. induction 1 as [|c l Hc Hl IH]; simpl; [done|]. by rewrite Hc, IH. Qed.

(** A scanned run followed by something that does not continue it. *)
Lemma span_take_app p s t :
  span p t = O -> span p (take (span p s) s ++ t) = span p s.
Proof.
  intros Ht. rewrite span_app by apply span_take.
  rewrite length_take_le by apply span_le. lia.
Qed.

(** The text after a scanned run, once the text is cut at [n + m]. *)
Lemma drop_take_app {A} (s t : list A) n m k :
  k = (n + m)%nat -> (k <= length s)%nat ->
  drop n (take k s ++ t) = take m (drop n s) ++ t.
Proof.
  intros -> Hle. rewrite drop_app_le by (rewrite length_take; lia).
  by rewrite take_drop_commute.
Qed.

Lemma span_cut p s t n :
  (span p s < n)%nat -> (span p s < length s)%nat ->
  span p (take n s ++ t) = span p s.
Proof.
  revert n. induction s as [|c r IH]; intros n Hn Hs; simpl in *.
  - lia.
  - destruct n as [|n]; [lia|]. simpl.
    destruct (p c); [|done]. rewrite IH; [done|lia|lia].
Qed.

Lemma take_app_sum {A} (l k : list A) n m :
  n = (length l + m)%nat -> take n (l ++ k) = l ++ take m k.
Proof. intros ->. by apply take_app_add'. Qed.

Lemma startswith_app p s :
  startswith p s = true -> s = p ++ drop (length p) s.
Proof.
  revert s. induction p as [|a p IH]; intros [|b s]; simpl; try done.
  intros [->%N.eqb_eq Hp]%andb_true_iff. f_equal. by apply IH.
Qed.

Lemma startswith_app_true p r : startswith p (p ++ r) = true.
Proof. induction p as [|a p IH]; simpl; [done|]. by rewrite N.eqb_refl. Qed.

(** The first code point survives the cut. *)
Lemma take_app_head (t : list N) (c : N) r k :
  (1 <= k)%nat -> exists r', take k (c :: r) ++ t = c :: r'.
Proof. destruct k as [|k]; [lia|]. intros _. simpl. eauto. Qed.

(** *** Each alternative is kept by cutting the text after its match and
        putting anything that does not start with whitespace there *)

Section Stable.
Variable t : list N.
Hypothesis t_start : span is_space t = O.

Lemma re_number_stable s k :
  re_number s = Some k ->
  re_number (take k s ++ t) = Some k /\ (1 <= k <= length s)%nat.
Proof.
  unfold re_number. intros Hk.
  destruct (span is_decimal s) as [|d] eqn:Hd; [done|].
  destruct (drop (S d) s) as [|c r] eqn:Hdrop; [done|].
  destruct (c =? 46) eqn:Hc; [|done]. apply N.eqb_eq in Hc as ->.
  injection Hk as <-.
  pose proof (span_le is_space r) as Hj.
  assert (length s = S d + S (length r))%nat as Hlen.
  { rewrite <- (take_drop (S d) s) at 1. rewrite length_app, Hdrop.
    rewrite length_take_le; [done|]. rewrite <- Hd. apply span_le. }
  split; [|lia].
  rewrite span_cut by lia. rewrite Hd. cbv iota.
  rewrite (drop_take_app _ _ (S d) (S (span is_space r))) by lia.
  rewrite Hdrop.
  change (take (S (span is_space r)) (46 :: r))
    with (46 :: take (span is_space r) r).
  simpl app. cbv iota. change (46 =? 46) with true. cbv iota.
  by rewrite span_take_app.
Qed.

Lemma re_step_stable s k :
  re_step s = Some k ->
  re_step (take k s ++ t) = Some k /\ (1 <= k <= length s)%nat.
Proof.
  unfold re_step. intros Hk.
  destruct (startswith (lit "Step") s) eqn:Hstart; [|done].
  apply startswith_app in Hstart.
  remember (lit "Step") as P eqn:HP.
  assert (length P = 4%nat) as HlenP by (by subst P).
  rewrite HlenP in Hstart.
  remember (drop 4 s) as r eqn:Hr. clear Hr. subst s.
  destruct (span is_space r) as [|w] eqn:Hw; [done|].
  destruct (span is_decimal (drop (S w) r)) as [|d] eqn:Hd; [done|].
  destruct (drop (S d) (drop (S w) r)) as [|c r'] eqn:Hdrop; [done|].
  destruct (c =? 58) eqn:Hc; [|done]. apply N.eqb_eq in Hc as ->.
  injection Hk as <-.
  assert (length (drop (S w) r) = S d + S (length r'))%nat as Hlen'.
  { rewrite <- (take_drop (S d) (drop (S w) r)) at 1.
    rewrite length_app, Hdrop.
    rewrite length_take_le; [done|]. rewrite <- Hd. apply span_le. }
  rewrite length_drop in Hlen'.
  split; [|rewrite length_app; lia].
  rewrite (take_app_sum P r _ (S w + S d + 1)) by lia.
  rewrite <- app_assoc, startswith_app_true.
  rewrite (drop_app_length' P) by done.
  rewrite span_cut by lia. rewrite Hw.
  rewrite (drop_take_app _ _ (S w) (S d + 1)) by lia.
  rewrite span_cut by (rewrite ?length_drop; lia). rewrite Hd.
  rewrite (drop_take_app _ _ (S d) 1) by (rewrite ?length_drop; lia).
  rewrite Hdrop. cbv iota.
  change (take 1 (58 :: r')) with [58]. simpl app. cbv iota.
  change (58 =? 58) with true. cbv iota. f_equal.
Qed.

Lemma re_lit_ws_stable x s k :
  re_lit_ws x s = Some k ->
  re_lit_ws x (take k s ++ t) = Some k /\ (1 <= k <= length s)%nat.
Proof.
  unfold re_lit_ws. intros Hk.
  destruct s as [|c r]; [done|].
  destruct (c =? x) eqn:Hc; [|done].
  destruct (span is_space r) as [|j] eqn:Hj; [done|].
  injection Hk as <-.
  pose proof (span_le is_space r) as Hle.
  split; [|simpl; lia].
  rewrite firstn_cons, <- app_comm_cons. rewrite Hc. rewrite <- Hj. by rewrite span_take_app, Hj.
Qed.

Lemma re_ws_lit_ws_stable x s k :
  is_space x = false ->
  re_ws_lit_ws x s = Some k ->
  re_ws_lit_ws x (take k s ++ t) = Some k /\ (1 <= k <= length s)%nat.
Proof.
  unfold re_ws_lit_ws. intros Hx Hk.
  destruct (re_lit_ws x (drop (span is_space s) s)) as [n|] eqn:Hn; [|done].
  injection Hk as <-.
  destruct (re_lit_ws_stable _ _ _ Hn) as [Hst Hlen].
  rewrite length_drop in Hlen.
  split; [|lia].
  assert (span is_space (take (span is_space s + n) s ++ t) = span is_space s)
    as Hsp.
  { (* the code point after the run is [x], which is not whitespace *)
    unfold re_lit_ws in Hn.
    destruct (drop (span is_space s) s) as [|c r] eqn:Hdrop; [done|].
    destruct (c =? x) eqn:Hc; [|done]. apply N.eqb_eq in Hc as ->.
    assert (length s = span is_space s + S (length r))%nat.
    { rewrite <- (take_drop (span is_space s) s) at 1.
      rewrite length_app, Hdrop, length_take_le by apply span_le. done. }
    apply span_cut; lia. }
  rewrite Hsp. rewrite (drop_take_app _ _ (span is_space s) n) by lia.
  by rewrite Hst.
Qed.

(** What the first code point of a match can be. *)

Lemma re_number_head s k :
  re_number s = Some k -> exists c r, s = c :: r /\ is_decimal c = true.
Proof.
  unfold re_number. destruct s as [|c r]; [done|]. simpl span.
  destruct (is_decimal c) eqn:Hc; [eauto|done].
Qed.

Lemma re_number_none c r : is_decimal c = false -> re_number (c :: r) = None.
Proof. intros Hc. unfold re_number. simpl span. by rewrite Hc. Qed.

Lemma re_step_head s k : re_step s = Some k -> exists r, s = 83 :: r.
Proof.
  unfold re_step. destruct (startswith (lit "Step") s) eqn:Hs; [|done].
  intros _. apply startswith_app in Hs. rewrite Hs. simpl. eauto.
Qed.

Lemma re_step_none c r : c <> 83 -> re_step (c :: r) = None.
Proof.
  intros Hc. unfold re_step.
  destruct (startswith (lit "Step") (c :: r)) eqn:Hs; [|done].
  apply startswith_app in Hs. by injection Hs.
Qed.

Lemma re_lit_ws_head x s k : re_lit_ws x s = Some k -> exists r, s = x :: r.
Proof.
  unfold re_lit_ws. destruct s as [|c r]; [done|].
  destruct (c =? x) eqn:Hc; [|done]. apply N.eqb_eq in Hc as ->. eauto.
Qed.

Lemma re_lit_ws_none x c r : c <> x -> re_lit_ws x (c :: r) = None.
Proof. intros Hc. unfold re_lit_ws. by apply N.eqb_neq in Hc as ->. Qed.

Lemma re_ws_lit_ws_head x s k :
  re_ws_lit_ws x s = Some k ->
  exists c r, s = c :: r /\ (is_space c = true \/ c = x).
Proof.
  unfold re_ws_lit_ws. destruct s as [|c r]; [done|]. simpl span.
  destruct (is_space c) eqn:Hc; [eauto|].
  rewrite drop_0. destruct (re_lit_ws x (c :: r)) as [n|] eqn:Hn; [|done].
  apply re_lit_ws_head in Hn as [r' [= -> ->]]. eauto.
Qed.

Lemma re_ws_lit_ws_none x c r :
  is_space c = false -> c <> x -> re_ws_lit_ws x (c :: r) = None.
Proof.
  intros Hs Hc. unfold re_ws_lit_ws. simpl span. rewrite Hs, drop_0.
  by rewrite re_lit_ws_none.
Qed.

(** A match of [\s*x\s+] excludes one of [\s*y\s+] for another literal,
    also after the cut. *)
Lemma re_ws_lit_ws_other x y s k :
  is_space x = false -> y <> x ->
  re_ws_lit_ws x s = Some k ->
  re_ws_lit_ws y (take k s ++ t) = None.
Proof.
  unfold re_ws_lit_ws. intros Hx Hy Hk.
  destruct (re_lit_ws x (drop (span is_space s) s)) as [n|] eqn:Hn; [|done].
  injection Hk as <-.
  destruct (re_lit_ws_stable _ _ _ Hn) as [_ Hlen].
  rewrite length_drop in Hlen.
  destruct (re_lit_ws_head _ _ _ Hn) as [r Hdrop].
  assert (length s = span is_space s + S (length r))%nat.
  { rewrite <- (take_drop (span is_space s) s) at 1.
    rewrite length_app, Hdrop, length_take_le by apply span_le. done. }
  rewrite span_cut by lia.
  rewrite (drop_take_app _ _ (span is_space s) n) by lia.
  rewrite Hdrop. destruct n as [|n]; [lia|].
  rewrite firstn_cons, <- app_comm_cons.
  by rewrite re_lit_ws_none.
Qed.

End Stable.

(** The marker found in a step is found again, with the same extent, in
    the marker followed by any text that does not start with whitespace. *)
Lemma marker_match_stable s k t :
  span is_space t = O ->
  marker_match s = Some k ->
  marker_match (take k s ++ t) = Some k /\ (1 <= k <= length s)%nat.
Proof.
  intros Ht. unfold marker_match, orelse.
  destruct (re_number s) as [n|] eqn:H1.
  { intros [= ->]. destruct (re_number_stable t Ht _ _ H1) as [-> ?]. done. }
  destruct (re_step s) as [n|] eqn:H2.
  { intros [= ->]. destruct (re_step_stable t Ht _ _ H2) as [He ?].
    destruct (re_step_head _ _ H2) as [r ->].
    destruct (take_app_head t 83 r k) as [r' Hr']; [lia|].
    rewrite Hr' in *. rewrite re_number_none by done. by rewrite He. }
  destruct (re_ws_lit_ws dash s) as [n|] eqn:H3.
  { intros [= ->].
    destruct (re_ws_lit_ws_stable t Ht dash _ _ eq_refl H3) as [He ?].
    destruct (re_ws_lit_ws_head _ _ _ H3) as (c & r & -> & Hc).
    destruct (take_app_head t c r k) as [r' Hr']; [lia|].
    rewrite Hr' in *.
    assert (is_decimal c = false /\ c <> 83) as [Hd Hs].
    { destruct Hc as [Hc| ->]; [|done]. split.
      - destruct (is_decimal c) eqn:Hd; [|done].
        apply decimal_not_space in Hd. congruence.
      - intros ->. done. }
    rewrite re_number_none, re_step_none by done. by rewrite He. }
  destruct (re_ws_lit_ws star s) as [n|] eqn:H4.
  { intros [= ->].
    destruct (re_ws_lit_ws_stable t Ht star _ _ eq_refl H4) as [He ?].
    pose proof (re_ws_lit_ws_other t Ht star dash _ _ eq_refl
                  ltac:(done) H4) as Hdash.
    destruct (re_ws_lit_ws_head _ _ _ H4) as (c & r & -> & Hc).
    destruct (take_app_head t c r k) as [r' Hr']; [lia|].
    rewrite Hr' in *.
    assert (is_decimal c = false /\ c <> 83) as [Hd Hs].
    { destruct Hc as [Hc| ->]; [|done]. split.
      - destruct (is_decimal c) eqn:Hd; [|done].
        apply decimal_not_space in Hd. congruence.
      - intros ->. done. }
    rewrite re_number_none, re_step_none by done. by rewrite Hdash, He. }
  intros H5.
  destruct (re_lit_ws_stable t Ht _ _ _ H5) as [He ?].
  destruct (re_lit_ws_head _ _ _ H5) as [r ->].
  destruct (take_app_head t bullet r k) as [r' Hr']; [lia|].
  rewrite Hr' in *.
  rewrite re_number_none, re_step_none by done.
  rewrite !re_ws_lit_ws_none by done. done.
Qed.

End MarkerFacts.

(** ** format.py: the enforcer *)

Module FormatFacts.
Import Py PyFacts Format MarkerFacts.

Lemma join_words_start ws :
  Forall is_word ws -> span is_space (join [32] ws) = O.
Proof.
  intros Hws. destruct Hws as [|w ws [Hne Hw] Hws]; [done|].
  destruct w as [|c w]; [done|].
  assert (is_space c = false) as Hc by (by inversion Hw).
  destruct ws; simpl; by rewrite Hc.
Qed.

Lemma marker_of_length step n :
  marker_match step = Some n ->
  marker_of step = take n step /\ (1 <= n <= length step)%nat.
Proof.
  intros Hn. unfold marker_of. rewrite Hn. split; [done|].
  by destruct (marker_match_stable step n [] eq_refl Hn).
Qed.

Lemma content_of_unmarked step :
  marker_match step = None -> content_of step = step.
Proof. intros Hn. unfold content_of, marker_of. by rewrite Hn. Qed.

Lemma content_of_marked step n :
  marker_match step = Some n -> content_of step = strip (drop n step).
Proof.
  intros Hn. destruct (marker_of_length _ _ Hn) as [Hm Hlen].
  unfold content_of. rewrite Hm.
  rewrite length_take_le by lia.
  destruct step as [|c r]; [simpl in Hlen; lia|].
  destruct n; [lia|]. done.
Qed.


Lemma slice_to_length {A} (n : Z) (l : list A) :
  (0 <= n)%Z -> (Z.of_nat (length (slice_to n l)) <= n)%Z.
Proof.
  intros Hn. unfold slice_to.
  destruct (0 <=? n)%Z eqn:H0; [|lia]. rewrite length_take. lia.
Qed.

Lemma slice_to_words n ws : Forall is_word ws -> Forall is_word (slice_to n ws).
Proof. intros Hws. unfold slice_to. destruct (0 <=? n)%Z; by apply Forall_take. Qed.

(** A step within the limit, marker counted, is returned as it is. *)
Lemma enforce_step_within step max_words :
  (Z.of_nat (length (split step)) <= max_words)%Z ->
  _enforce_step step max_words = step.
Proof.
  intros Hle. unfold _enforce_step.
  destruct (Z.of_nat (length (split step)) <=? max_words)%Z eqn:Hc; [done|].
  lia.
Qed.


(** *** Adherence *)

Lemma within_limit_le n counts : (within_limit n counts <= length counts)%nat.
Proof. unfold within_limit. apply length_filter. Qed.

Lemma within_limit_all n counts :
  Forall (fun count => (Z.of_nat count <= n)%Z) counts ->
  within_limit n counts = length counts.
Proof.
  intros Hall. unfold within_limit. f_equal.
  induction Hall as [|c cs Hc Hcs IH]; [done|].
  rewrite filter_cons_True by done. by rewrite IH.
Qed.


Lemma Qnat_ratio_one a : (0 < a)%nat -> (Qnat a / Qnat a == 1)%Q.
Proof.
  intros Ha. unfold Qnat. apply Qmult_inv_r.
  intros Heq. unfold Qeq in Heq. simpl in Heq. lia.
Qed.

Lemma adherence_rate_unfold text n :
  adherence_rate (analyze_adherence text n) =
  match _split_into_steps text with
  | [] => 1%Q
  | steps => (Qnat (within_limit n (map step_count steps))
              / Qnat (length steps))%Q
  end.
Proof.
  unfold analyze_adherence. simpl.
  destruct (_split_into_steps text) eqn:Hs; [done|].
  by rewrite bool_decide_false.
Qed.



End FormatFacts.


Module FormatClaims.
Import Py PyFacts Format MarkerFacts FormatFacts Samples.




Example unmarked_text_is_one_step :
  step_counts (analyze_adherence (lit "no markers and no line breaks") 4)
  = [6%nat]
  /\ adherence_rate (analyze_adherence (lit "no markers and no line breaks") 4)
     = 0%Q.
Proof. vm_compute. done. Qed.




End FormatClaims.



(** ** The separator *)

Module SeparatorFacts.
Import Py PyFacts Client Spec Samples.

(** [find] gives the first occurrence. *)
Lemma find_first_occurrence sub s i :
  find sub s = Some i ->
  startswith sub (drop i s) = true
  /\ forall j, (j < i)%nat -> startswith sub (drop j s) = false.
Proof.
  revert i. induction s as [|c r IH]; intros i.
  - simpl. destruct (startswith sub []) eqn:Hs; [|done].
    intros [= <-]. split; [done|]. intros; lia.
  - simpl find. destruct (startswith sub (c :: r)) eqn:Hs.
    + intros [= <-]. split; [done|]. intros; lia.
    + destruct (find sub r) as [i'|] eqn:Hf; [|done].
      intros [= <-]. destruct (IH i' eq_refl) as [Hi Hlt].
      split; [done|]. intros [|j] Hj; [done|]. apply Hlt. lia.
Qed.

Lemma find_none sub s j : find sub s = None -> startswith sub (drop j s) = false.
Proof.
  revert j. induction s as [|c r IH]; intros j.
  - simpl. rewrite drop_nil. by destruct (startswith sub []).
  - simpl find. destruct (startswith sub (c :: r)) eqn:Hs; [done|].
    destruct (find sub r) eqn:Hf; [done|]. intros _.
    destruct j as [|j]; [done|]. by apply IH.
Qed.

Lemma split_on_aux_skip sep k cur s :
  split_on_aux sep k cur s = split_on_aux sep 0 cur (drop k s).
Proof.
  revert k. induction s as [|c r IH]; intros [|k]; try done.
  simpl. apply IH.
Qed.

(** [s.split(sep)] cuts at the first occurrence and goes on after it. *)
Lemma split_on_aux_find sep cur s :
  sep <> [] ->
  split_on_aux sep 0 cur s =
  match find sep s with
  | None => [rev cur ++ s]
  | Some i =>
      (rev cur ++ take i s) :: split_on_aux sep 0 [] (drop (i + length sep) s)
  end.
Proof.
  intros Hsep. revert cur. induction s as [|c r IH]; intros cur.
  - destruct sep; [done|]. simpl. by rewrite app_nil_r.
  - simpl find. simpl split_on_aux.
    destruct (startswith sep (c :: r)) eqn:Hs.
    + rewrite app_nil_r, split_on_aux_skip.
      destruct sep as [|a sep']; [done|]. simpl. by rewrite Nat.sub_0_r.
    + rewrite IH. destruct (find sep r) as [i|]; simpl.
      * by rewrite <- app_assoc.
      * by rewrite <- app_assoc.
Qed.

Lemma split_on_find sep s :
  sep <> [] ->
  split_on sep s =
  match find sep s with
  | None => [s]
  | Some i => take i s :: split_on sep (drop (i + length sep) s)
  end.
Proof. intros Hsep. unfold split_on. by rewrite split_on_aux_find. Qed.

(** C3, as the code has it. The reasoning is the stripped text before the
    first occurrence of ["####"], or the whole stripped text when there is
    none; the answer is the stripped text between the first occurrence and
    the next one (to the end when there is no next one), or the sentinel
    when the separator is absent. *)
Theorem extract_first_separator text :
  match find (lit "####") text with
  | None => extract text = (strip text, no_answer)
  | Some i =>
      let rest := drop (i + 4) text in
      extract text =
      (strip (take i text),
       strip (match find (lit "####") rest with
              | Some j => take j rest
              | None => rest
              end))
  end.
Proof.
  unfold extract. rewrite split_on_find by done.
  destruct (find (lit "####") text) as [i|]; [|done].
  cbv zeta. change (length (lit "####")) with 4%nat.
  rewrite (split_on_find _ (drop (i + 4) text)) by done.
  by destruct (find (lit "####") (drop (i + 4) text)).
Qed.

Example extract_scenario :
  extract (lit "step one reasoning here #### 42")
  = (lit "step one reasoning here", lit "42").
Proof. vm_compute. reflexivity. Qed.

(** C3 as stated fails: in ["a####b####c"] everything after the first
    separator is ["b####c"], and the answer is ["b"]. *)
Lemma extract_stops_at_second_separator :
  spec_extract two_separators = (lit "a", lit "b####c")
  /\ extract two_separators = (lit "a", lit "b")
  /\ extract two_separators <> spec_extract two_separators.
Proof. vm_compute. split_and!; done. Qed.

End SeparatorFacts.


(** ** reasoning.py *)

Module ReasoningClaims.
Import Py Effects Reasoning Samples Scenarios.

Lemma Qltb_lt a b : Qltb a b = true <-> (a < b)%Q.
Proof.
  unfold Qltb. rewrite negb_true_iff. split.
  - intros Hb. apply Qnot_le_lt. intros Hle.
    apply Qle_bool_iff in Hle. congruence.
  - intros Hlt. destruct (Qle_bool b a) eqn:Hb; [|done].
    apply Qle_bool_iff in Hb. by apply Qlt_not_le in Hlt.
Qed.

Lemma Qltb_ge a b : Qltb a b = false <-> (b <= a)%Q.
Proof.
  unfold Qltb. rewrite negb_false_iff. apply Qle_bool_iff.
Qed.

Lemma cod_accuracy_first pre row post :
  Forall (fun p => p_approach p <> CoD) pre ->
  p_approach row = CoD ->
  cod_accuracy (pre ++ row :: post) = p_accuracy row.
Proof.
  intros Hpre Hrow. unfold cod_accuracy. rewrite filter_app.
  assert (filter (fun p => p_approach p = CoD) pre = []) as ->.
  { induction Hpre as [|p pre Hp Hpre IH]; [done|].
    by rewrite filter_cons_False. }
  by rewrite filter_cons_True.
Qed.

Lemma cod_accuracy_absent rows :
  Forall (fun p => p_approach p <> CoD) rows -> cod_accuracy rows = None.
Proof.
  intros Hrows. unfold cod_accuracy.
  assert (filter (fun p => p_approach p = CoD) rows = []) as ->; [|done].
  induction Hrows as [|p rows Hp Hrows IH]; [done|].
  by rewrite filter_cons_False.
Qed.

Section Decision.
Context `{CaseTable}.
Variable env : Env.
Variable self : ReasoningSelector.

(** The decision below the complexity threshold, by the accuracy that
    the code reads from the rows. *)
Lemma select_approach_below problem domain score fallback rows w :
  default_preferences self !! lit "default" = Some fallback ->
  let prefs := default fallback (default_preferences self !! lower domain) in
  let complexity_score :=
    match score with
    | Some given => given
    | None => Complexity.estimate_complexity Complexity.init problem domain
    end in
  (complexity_score <= complexity_threshold prefs)%Z ->
  get_performance_by_domain env (recorded w) domain = inr rows ->
  select_approach env self problem domain score w
  = (inr match cod_accuracy rows with
         | Some accuracy =>
             if Qltb accuracy (accuracy_threshold prefs)
             then (CoT, AccuracyBelow accuracy (accuracy_threshold prefs))
             else (CoD, Fixed default_reason)
         | None => (CoD, Fixed default_reason)
         end,
     snd (query_performance env domain w)).
Proof.
  intros Hdefault prefs complexity_score Hle Hrows.
  unfold select_approach, preferences_for. rewrite Hdefault.
  unfold mbind at 1, M_bind at 1. cbn [mret M_ret]. fold prefs.
  cbv zeta. fold complexity_score.
  assert ((complexity_score >? complexity_threshold prefs)%Z = false) as ->
    by (rewrite Z.gtb_ltb; lia).
  unfold mbind, M_bind, query_performance. rewrite Hrows. cbn [snd].
  destruct (cod_accuracy rows) as [accuracy|]; [|done].
  by destruct (Qltb accuracy (accuracy_threshold prefs)).
Qed.

(** C5. Let [prefs] be the thresholds of the domain (its own entry, or
    the ["default"] entry) and let the complexity score be the one given,
    or the estimate of a fresh estimator when none is given. A score
    above the complexity threshold gives CoT at once: the store is not
    asked, whatever it holds. Otherwise the store is asked once, and its
    rows decide: if the first row whose approach is ["CoD"] has a
    recorded accuracy below the accuracy threshold the answer is CoT,
    and if that accuracy is at or above the threshold, or is not
    recorded, or no row is for ["CoD"], the answer is CoD with the fixed
    justification. Rows of other approaches do not count. A failure of
    the store is passed on. *)
Theorem select_approach_first_match problem domain score fallback w :
  default_preferences self !! lit "default" = Some fallback ->
  let prefs := default fallback (default_preferences self !! lower domain) in
  let complexity_score :=
    match score with
    | Some given => given
    | None => Complexity.estimate_complexity Complexity.init problem domain
    end in
  let asked := snd (query_performance env domain w) in
  let terse := (CoD, Fixed "Default to Chain-of-Draft for efficiency") in
  ((complexity_threshold prefs < complexity_score)%Z ->
     select_approach env self problem domain score w
     = (inr (CoT, ComplexityAbove complexity_score (complexity_threshold prefs)),
        w))
  /\ ((complexity_score <= complexity_threshold prefs)%Z ->
      (forall e,
         get_performance_by_domain env (recorded w) domain = inl e ->
         select_approach env self problem domain score w = (inl e, asked))
      /\ forall rows,
           get_performance_by_domain env (recorded w) domain = inr rows ->
           (Forall (fun p => p_approach p <> CoD) rows ->
            select_approach env self problem domain score w = (inr terse, asked))
           /\ forall pre row post,
                rows = pre ++ row :: post ->
                Forall (fun p => p_approach p <> CoD) pre ->
                p_approach row = CoD ->
                (p_accuracy row = None ->
                 select_approach env self problem domain score w
                 = (inr terse, asked))
                /\ forall accuracy,
                     p_accuracy row = Some accuracy ->
                     ((accuracy < accuracy_threshold prefs)%Q ->
                      select_approach env self problem domain score w
                      = (inr (CoT, AccuracyBelow accuracy
                                     (accuracy_threshold prefs)), asked))
                     /\ ((accuracy_threshold prefs <= accuracy)%Q ->
                         select_approach env self problem domain score w
                         = (inr terse, asked))).
Proof.
  intros Hdefault prefs complexity_score asked terse. split.
  - intros Hgt. unfold select_approach, preferences_for. rewrite Hdefault.
    unfold mbind at 1, M_bind at 1. cbn [mret M_ret]. fold prefs.
    cbv zeta. fold complexity_score.
    apply Z.gtb_lt in Hgt. by rewrite Hgt.
  - intros Hle. split.
    + intros e He. unfold select_approach, preferences_for. rewrite Hdefault.
      unfold mbind at 1, M_bind at 1. cbn [mret M_ret]. fold prefs.
      cbv zeta. fold complexity_score.
      assert ((complexity_score >? complexity_threshold prefs)%Z = false) as ->
        by (rewrite Z.gtb_ltb; lia).
      unfold mbind, M_bind, asked, query_performance. by rewrite He.
    + intros rows Hrows.
      pose proof (select_approach_below problem domain score fallback rows w
                    Hdefault Hle Hrows) as Hrun.
      fold prefs asked in Hrun. split.
      * intros Hnone. by rewrite Hrun, cod_accuracy_absent.
      * intros pre row post -> Hpre Hrow.
        rewrite cod_accuracy_first in Hrun by done. split.
        -- intros Hacc. by rewrite Hrun, Hacc.
        -- intros accuracy Hacc. rewrite Hacc in Hrun. split.
           ++ intros Hlt. apply Qltb_lt in Hlt. by rewrite Hrun, Hlt.
           ++ intros Hge. apply Qltb_ge in Hge. by rewrite Hrun, Hge.
Qed.

End Decision.

Lemma select_approach_first_match_witness :
  @select_approach ascii_lower (history_env cod_poor) Reasoning.init
    (lit "prove it") (lit "math") None fresh_world
  = (inr (CoT, ComplexityAbove 8 7), fresh_world)
  /\ fst (@select_approach ascii_lower (history_env cod_poor) Reasoning.init
            (lit "2 + 2?") (lit "math") (Some 6%Z) fresh_world)
     = inr (CoT, AccuracyBelow (1 # 2) (85 # 100))
  /\ fst (@select_approach ascii_lower (history_env cod_proven) Reasoning.init
            (lit "2 + 2?") (lit "math") (Some 6%Z) fresh_world)
     = inr (CoD, Fixed "Default to Chain-of-Draft for efficiency")
  /\ fst (@select_approach ascii_lower quiet_env Reasoning.init
            (lit "2 + 2?") (lit "math") (Some 6%Z) fresh_world)
     = inr (CoD, Fixed "Default to Chain-of-Draft for efficiency").
Proof.
  assert (default_preferences Reasoning.init !! lit "default"
          = Some {| complexity_threshold := 6; accuracy_threshold := 8 # 10 |})
    as Hdefault by (vm_compute; reflexivity).
  split_and!.
  - destruct (@select_approach_first_match ascii_lower (history_env cod_poor)
                Reasoning.init (lit "prove it") (lit "math") None _ fresh_world
                Hdefault) as [Hgt _].
    apply Hgt. vm_compute. reflexivity.
  - destruct (@select_approach_first_match ascii_lower (history_env cod_poor)
                Reasoning.init (lit "2 + 2?") (lit "math") (Some 6%Z) _
                fresh_world Hdefault) as [_ Hlow].
    destruct (Hlow ltac:(vm_compute; discriminate)) as [_ Hrows].
    destruct (Hrows cod_poor eq_refl) as [_ Hfirst].
    destruct (Hfirst [history_row CoT (Some (99 # 100))]
                (history_row CoD (Some (1 # 2))) [] eq_refl) as [_ Hacc].
    + repeat constructor. vm_compute. discriminate.
    + reflexivity.
    + destruct (Hacc (1 # 2)%Q eq_refl) as [Hbelow _].
      rewrite Hbelow; [reflexivity | vm_compute; reflexivity].
  - destruct (@select_approach_first_match ascii_lower (history_env cod_proven)
                Reasoning.init (lit "2 + 2?") (lit "math") (Some 6%Z) _
                fresh_world Hdefault) as [_ Hlow].
    destruct (Hlow ltac:(vm_compute; discriminate)) as [_ Hrows].
    destruct (Hrows cod_proven eq_refl) as [_ Hfirst].
    destruct (Hfirst [history_row CoT (Some (1 # 10))]
                (history_row CoD (Some (99 # 100))) [] eq_refl) as [_ Hacc].
    + repeat constructor. vm_compute. discriminate.
    + reflexivity.
    + destruct (Hacc (99 # 100)%Q eq_refl) as [_ Habove].
      rewrite Habove; [reflexivity | vm_compute; discriminate].
  - destruct (@select_approach_first_match ascii_lower quiet_env
                Reasoning.init (lit "2 + 2?") (lit "math") (Some 6%Z) _
                fresh_world Hdefault) as [_ Hlow].
    destruct (Hlow ltac:(vm_compute; discriminate)) as [_ Hrows].
    destruct (Hrows [] eq_refl) as [Hnone _].
    rewrite Hnone; [reflexivity | constructor].
Defined.

End ReasoningClaims.

(** ** client.py *)

Module ClientFacts.
Import Py Effects Reasoning Client Samples.

(** A computation that returns went through both halves of a bind. *)
Lemma bind_inr {A B} (m : M A) (f : A -> M B) w b w' :
  (m ≫= f) w = (inr b, w') ->
  exists a w1, m w = (inr a, w1) /\ f a w1 = (inr b, w').
Proof.
  unfold mbind, M_bind. destruct (m w) as [[e|a] w1]; [done|]. eauto.
Qed.

Lemma bind_congr {A B} (m : M A) (f g : A -> M B) w :
  (forall a w1, f a w1 = g a w1) -> (m ≫= f) w = (m ≫= g) w.
Proof.
  intros Hfg. unfold mbind, M_bind. destruct (m w) as [[e|a] w1]; [done|].
  apply Hfg.
Qed.

Lemma same_logs_refl w : same_logs w w.
Proof. done. Qed.

Lemma same_logs_trans w1 w2 w3 :
  same_logs w1 w2 -> same_logs w2 w3 -> same_logs w1 w3.
Proof. intros [? ?] [? ?]. split; congruence. Qed.

Section Frames.
Context `{CaseTable}.
Variable env : Env.

Lemma now_logs w t w1 : now env w = (inr t, w1) -> same_logs w w1.
Proof. intros [= _ <-]. done. Qed.

Lemma select_approach_logs self problem domain score w x w1 :
  select_approach env self problem domain score w = (x, w1) -> same_logs w w1.
Proof.
  unfold select_approach, preferences_for, mbind, M_bind, query_performance,
    raise, mret, M_ret.
  repeat case_match; intros; simplify_eq; done.
Qed.

Lemma enforce_and_analyze_world reasoning limit w x w1 :
  enforce_and_analyze reasoning limit w = (x, w1) -> w1 = w.
Proof.
  unfold enforce_and_analyze, raise, mret, M_ret.
  repeat case_match; intros; simplify_eq; done.
Qed.

Lemma chat_backend_logs q w response w1 :
  chat_backend env q w = (inr response, w1) ->
  chats w1 = chats w ++ [q] /\ recorded w1 = recorded w
  /\ llm_chat env (length (chats w)) q = inr response.
Proof. intros [= Hr <-]. done. Qed.

(** What follows the backend call sees the answer with other usage counts
    only if it reads them. *)
Lemma chat_backend_usage {B} usage q (k : ChatResponse -> M B) w :
  (forall text i o i' o' w1,
     k {| r_content := text; r_input_tokens := i; r_output_tokens := o |} w1
     = k {| r_content := text; r_input_tokens := i'; r_output_tokens := o' |} w1) ->
  (chat_backend (report_usage usage env) q ≫= k) w
  = (chat_backend env q ≫= k) w.
Proof.
  intros Hk. unfold mbind, M_bind, chat_backend. simpl.
  destruct (llm_chat env (length (chats w)) q) as [e|[text i o]]; [done|].
  apply Hk.
Qed.

End Frames.

Section Tokens.
Context `{CaseTable}.
Variable env : Env.
Variable self : ChainOfDraftClient.

(** C10. When [solve_with_reasoning] returns, exactly one request [q] went
    to the backend; with [response] its answer, the [token_count] of the
    result is the number of whitespace-separated words of the whole
    answer text, and so is the [tokens_used] of the event recorded when
    analytics are tracked. The usage counts that the backend reports do
    not enter: with any other counts the call returns the same result and
    leaves the same world. *)
Theorem token_count_is_word_count problem domain kwargs w result w' :
  solve_with_reasoning env self problem domain kwargs w = (inr result, w') ->
  (exists q response,
      chats w' = chats w ++ [q]
      /\ llm_chat env (length (chats w)) q = inr response
      /\ token_count result = length (split (r_content response))
      /\ (track_analytics (override (settings self) kwargs) = true ->
          exists event,
            recorded w' = recorded w ++ [event]
            /\ e_tokens_used event = length (split (r_content response))))
  /\ forall usage,
       solve_with_reasoning (report_usage usage env) self problem domain kwargs w
       = (inr result, w').
Proof.
  intros Hrun. split.
  - unfold solve_with_reasoning in Hrun.
    destruct (kw_domain kwargs); [done|].
    apply bind_inr in Hrun as (start_time & w1 & Hnow & Hrun).
    apply now_logs in Hnow.
    apply bind_inr in Hrun as ([chosen reason] & w2 & Hsel & Hrun).
    assert (same_logs w1 w2) as Hlog2.
    { destruct (approach (override (settings self) kwargs))
        as [[[|c forced]|]|]; try (by eapply select_approach_logs).
      by injection Hsel as _ _ <-. }
    apply bind_inr in Hrun as (examples & w3 & Hex & Hrun).
    injection Hex as _ <-.
    apply bind_inr in Hrun as (response & w4 & Hchat & Hrun).
    apply chat_backend_logs in Hchat as (Hchats & Hrec & Hllm).
    destruct (extract (r_content response)) as [reasoning answer] eqn:Hext.
    apply bind_inr in Hrun as ([reasoning' adherence] & w5 & Henf & Hrun).
    assert (w5 = w4) as ->.
    { destruct (enforce_format (override (settings self) kwargs)
                && bool_decide (chosen = CoD));
        [by eapply enforce_and_analyze_world|].
      by injection Henf as _ _ <-. }
    apply bind_inr in Hrun as ([] & w6 & Hrecd & Hrun).
    injection Hrun as <- <-.
    destruct Hnow as [Hc1 Hr1]. destruct Hlog2 as [Hc2 Hr2].
    eexists _, response. split_and!.
    + destruct (track_analytics (override (settings self) kwargs));
        [|injection Hrecd as <-; rewrite Hchats, Hc2, Hc1; done].
      apply bind_inr in Hrecd as (end_time & w7 & Hend & Hrecd).
      apply now_logs in Hend as [Hc7 _]. unfold record_inference in Hrecd.
      destruct (commit_error env (recorded w7) _); [done|].
      injection Hrecd as <-.
      simpl. rewrite Hc7, Hchats, Hc2, Hc1. done.
    + rewrite <- Hc1, <- Hc2. exact Hllm.
    + done.
    + intros Htrack. rewrite Htrack in Hrecd.
      apply bind_inr in Hrecd as (end_time & w7 & Hend & Hrecd).
      apply now_logs in Hend as [_ Hr7]. unfold record_inference in Hrecd.
      destruct (commit_error env (recorded w7) _); [done|].
      injection Hrecd as <-.
      eexists. simpl. rewrite Hr7, Hrec, Hr2, Hr1. done.
  - intros usage. rewrite <- Hrun. clear Hrun.
    unfold solve_with_reasoning.
    destruct (kw_domain kwargs); [done|].
    apply (bind_congr (now env)); intros start_time w1.
    apply (bind_congr
             (match Client.approach (override (settings self) kwargs) with
              | Some (Some (c :: forced)) =>
                  mret (c :: forced, Fixed "Manually specified")
              | _ => select_approach env (reasoning_selector self) problem
                       domain (Some (Complexity.estimate_complexity
                                       (complexity_estimator self) problem domain))
              end)); intros [chosen reason] w2.
    apply (bind_congr (fetch_examples env domain chosen)); intros examples w3.
    apply chat_backend_usage. reflexivity.
Qed.

(** What [solve_with_reasoning] puts in the result for the complexity and
    the word limit. *)
Lemma solution_word_limit problem domain kwargs w result w' :
  solve_with_reasoning env self problem domain kwargs w = (inr result, w') ->
  s_complexity result
  = Complexity.estimate_complexity (complexity_estimator self) problem domain
  /\ word_limit result
     = resolve_word_limit (override (settings self) kwargs)
         (s_approach result) (s_complexity result).
Proof.
  intros Hrun. unfold solve_with_reasoning in Hrun.
  destruct (kw_domain kwargs); [done|].
  apply bind_inr in Hrun as (start_time & w1 & _ & Hrun).
  apply bind_inr in Hrun as ([chosen reason] & w2 & _ & Hrun).
  apply bind_inr in Hrun as (examples & w3 & _ & Hrun).
  apply bind_inr in Hrun as (response & w4 & _ & Hrun).
  destruct (extract (r_content response)) as [reasoning answer].
  apply bind_inr in Hrun as ([reasoning' adherence] & w5 & _ & Hrun).
  apply bind_inr in Hrun as ([] & w6 & _ & Hrun).
  injection Hrun as <- <-. done.
Qed.

(** With adaptive limits on and the approach CoD, the limit is the
    complexity, whatever [max_words_per_step] the caller has supplied. *)
Lemma resolve_word_limit_adaptive settings kwargs complexity :
  adaptive_word_limit (override settings kwargs) = true ->
  resolve_word_limit (override settings kwargs) CoD complexity = Some complexity.
Proof. intros Ha. unfold resolve_word_limit. by rewrite Ha. Qed.

Lemma last_user_message_none msgs :
  (forall m, m ∈ msgs -> role m <> lit "user") -> last_user_message msgs = [].
Proof.
  intros Hno. unfold last_user_message.
  destruct (filter _ (rev msgs)) as [|m ms] eqn:Hf; [done|].
  assert (m ∈ filter (fun m => role m = lit "user") (rev msgs)) as Hm
    by (rewrite Hf; left).
  apply list_elem_of_filter in Hm as [Hrole Hin].
  apply list_elem_of_In, in_rev, list_elem_of_In in Hin.
  by apply Hno in Hin.
Qed.

(** C9. [completions] without a prompt, and [chat] and [messages] without
    messages or without a user message among them, raise [ValueError]
    and leave the world as it was: no request has gone to the backend and
    no event has been recorded. *)
Theorem missing_input_fails_fast model kwargs w :
  completions env self model None kwargs w
  = (inl (ValueError "Prompt is required"), w)
  /\ completions env self model (Some []) kwargs w
     = (inl (ValueError "Prompt is required"), w)
  /\ chat env self model None kwargs w
     = (inl (ValueError "Messages are required"), w)
  /\ chat env self model (Some []) kwargs w
     = (inl (ValueError "Messages are required"), w)
  /\ messages env self model None kwargs w
     = (inl (ValueError "Messages are required"), w)
  /\ messages env self model (Some []) kwargs w
     = (inl (ValueError "Messages are required"), w)
  /\ forall msgs,
       msgs <> [] ->
       (forall m, m ∈ msgs -> role m <> lit "user") ->
       chat env self model (Some msgs) kwargs w
       = (inl (ValueError "No user message found in the provided messages"), w)
       /\ messages env self model (Some msgs) kwargs w
          = (inl (ValueError "No user message found in the provided messages"), w).
Proof.
  split_and!; try done.
  intros msgs Hne Hno. apply last_user_message_none in Hno.
  destruct msgs as [|m0 ms]; [done|].
  unfold chat, messages. by rewrite Hno.
Qed.

End Tokens.

Lemma token_count_is_word_count_witness :
  exists result w',
    @solve_with_reasoning ascii_lower quiet_env (Client.init no_kwargs)
      (lit "prove it") (lit "math") no_kwargs fresh_world = (inr result, w')
    /\ token_count result = 8%nat
    /\ forall usage,
         @solve_with_reasoning ascii_lower (report_usage usage quiet_env)
           (Client.init no_kwargs) (lit "prove it") (lit "math") no_kwargs
           fresh_world = (inr result, w').
Proof.
  eexists _, _.
  assert (@solve_with_reasoning ascii_lower quiet_env (Client.init no_kwargs)
            (lit "prove it") (lit "math") no_kwargs fresh_world = _) as Hrun
    by (vm_compute; reflexivity).
  split; [exact Hrun|].
  destruct (@token_count_is_word_count ascii_lower quiet_env _ _ _ _ _ _ _ Hrun)
    as [(q & response & _ & Hllm & Hcount & _) Husage].
  split; [|exact Husage].
  rewrite Hcount. injection Hllm as <-. vm_compute. reflexivity.
Defined.

Lemma missing_input_fails_fast_witness :
  fst (@chat ascii_lower quiet_env (Client.init no_kwargs) None
         (Some [{| role := lit "assistant"; content := lit "hello" |}])
         no_kwargs fresh_world)
  = inl (ValueError "No user message found in the provided messages").
Proof.
  destruct (@missing_input_fails_fast ascii_lower quiet_env
              (Client.init no_kwargs) None no_kwargs fresh_world)
    as (_ & _ & _ & _ & _ & _ & Hno).
  destruct (Hno [{| role := lit "assistant"; content := lit "hello" |}])
    as [-> _]; [done | | reflexivity].
  intros m ->%list_elem_of_singleton. vm_compute. discriminate.
Defined.

(** C8 fails on the code. With the default settings (adaptive limits on),
    the approach forced to CoD and [max_words_per_step=5] supplied by the
    caller, the word limit of the result is the complexity, 8, not 5. *)
Lemma caller_limit_ignored_when_adaptive :
  match fst (@solve_with_reasoning ascii_lower quiet_env (Client.init no_kwargs)
               (lit "prove it") (lit "math") forced_cod_limit_5 fresh_world)
  with
  | inr result =>
      s_approach result = CoD /\ s_complexity result = 8%Z
      /\ word_limit result = Some 8%Z
      /\ max_words_per_step
           (override (settings (Client.init no_kwargs)) forced_cod_limit_5)
         = Some 5%Z
  | inl _ => False
  end.
Proof. vm_compute. done. Qed.

End ClientFacts.

(** ** More on Python strings *)

Module StrFacts.
Import Py PyFacts Format MarkerFacts SeparatorFacts.

Lemma split_app_space x c y :
  is_space c = true -> split (x ++ c :: y) = split x ++ split y.
Proof.
  intros Hc. induction x as [|a x IH]; [by apply split_cons_space|].
  destruct (is_space a) eqn:Ha.
  { change ((a :: x) ++ c :: y) with (a :: (x ++ c :: y)).
    by rewrite !split_cons_space. }
  destruct x as [|a' x'].
  { simpl. by rewrite Ha, Hc. }
  change ((a :: a' :: x') ++ c :: y) with (a :: a' :: (x' ++ c :: y)).
  change (split (a :: a' :: (x' ++ c :: y))) with
    (if is_space a then split (a' :: (x' ++ c :: y))
     else if is_space a' then [a] :: split (a' :: (x' ++ c :: y))
     else match split (a' :: (x' ++ c :: y)) with
          | w :: ws => (a :: w) :: ws
          | [] => [[a]]
          end).
  change (split (a :: a' :: x')) with
    (if is_space a then split (a' :: x')
     else if is_space a' then [a] :: split (a' :: x')
     else match split (a' :: x') with
          | w :: ws => (a :: w) :: ws
          | [] => [[a]]
          end).
  change (a' :: (x' ++ c :: y)) with ((a' :: x') ++ c :: y).
  rewrite Ha, IH. destruct (is_space a') eqn:Ha'; [done|].
  pose proof (split_cons_nonspace a' x' Ha').
  by destruct (split (a' :: x')).
Qed.

Lemma split_join_lines lines :
  split (join [nl] lines) = concat (map split lines).
Proof.
  induction lines as [|l lines IH]; [done|].
  destruct lines as [|l' lines'].
  - simpl. by rewrite app_nil_r.
  - change (join [nl] (l :: l' :: lines'))
      with (l ++ nl :: join [nl] (l' :: lines')).
    rewrite split_app_space by done. by rewrite IH.
Qed.

Lemma split_on_nonempty sep s : sep <> [] -> split_on sep s <> [].
Proof. intros Hsep. rewrite split_on_find by done. by destruct (find sep s). Qed.

Lemma find_cut sub s i :
  find sub s = Some i -> s = take i s ++ sub ++ drop (i + length sub) s.
Proof.
  intros Hf. apply find_first_occurrence in Hf as [Hs _].
  apply startswith_app in Hs. rewrite drop_drop in Hs.
  rewrite <- Hs. by rewrite take_drop.
Qed.

Lemma startswith_length p s : startswith p s = true -> (length p <= length s)%nat.
Proof.
  revert s. induction p as [|a p IH]; intros [|b s]; simpl; try done; try lia.
  intros [_ Hp]%andb_true_iff. apply IH in Hp. lia.
Qed.

Lemma find_bound sub s i : find sub s = Some i -> (i + length sub <= length s)%nat.
Proof.
  revert i. induction s as [|c r IH]; intros i; simpl find.
  - destruct (startswith sub []) eqn:Hs; [|done].
    intros [= <-]. by apply startswith_length in Hs.
  - destruct (startswith sub (c :: r)) eqn:Hs.
    + intros [= <-]. by apply startswith_length in Hs.
    + destruct (find sub r) as [i'|]; [|done].
      intros [= <-]. specialize (IH i' eq_refl). simpl. lia.
Qed.

(** [sep.join(s.split(sep)) == s] *)
Lemma join_split_on sep s : sep <> [] -> join sep (split_on sep s) = s.
Proof.
  intros Hsep.
  assert (forall n s, (length s <= n)%nat -> join sep (split_on sep s) = s)
    as Hall; [|by apply (Hall (length s))].
  clear s. induction n as [|n IH]; intros s Hn.
  - destruct s; [|simpl in Hn; lia].
    rewrite split_on_find by done. destruct sep; [done|]. done.
  - rewrite split_on_find by done.
    destruct (find sep s) as [i|] eqn:Hf; [|done].
    pose proof (find_bound _ _ _ Hf) as Hb.
    pose proof (split_on_nonempty sep (drop (i + length sep) s) Hsep) as Hne.
    destruct (split_on sep (drop (i + length sep) s)) as [|q qs] eqn:Hq;
      [done|].
    change (join sep (take i s :: q :: qs))
      with (take i s ++ sep ++ join sep (q :: qs)).
    rewrite <- Hq, IH.
    + symmetry. by apply find_cut.
    + rewrite length_drop. destruct sep; [done|]. simpl in *. lia.
Qed.

Lemma ink_app x y : ink (x ++ y) = ink x ++ ink y.
Proof. unfold ink. apply filter_app. Qed.

Lemma ink_word w : Forall (fun c => is_space c = false) w -> ink w = w.
Proof.
  unfold ink. induction 1 as [|c w Hc Hw IH]; [done|].
  rewrite filter_cons_True by done. by rewrite IH.
Qed.

Lemma ink_cons_space c s : is_space c = true -> ink (c :: s) = ink s.
Proof. intros Hc. unfold ink. rewrite filter_cons_False; [done|congruence]. Qed.

Lemma ink_cons_nonspace c s : is_space c = false -> ink (c :: s) = c :: ink s.
Proof. intros Hc. unfold ink. by rewrite filter_cons_True. Qed.

(** The words of a string, put end to end, are its non-whitespace code
    points. *)
Lemma concat_split s : concat (split s) = ink s.
Proof.
  induction s as [|c r IH]; [done|].
  destruct (is_space c) eqn:Hc.
  { by rewrite split_cons_space, ink_cons_space. }
  rewrite ink_cons_nonspace by done. rewrite <- IH.
  simpl. rewrite Hc. destruct r as [|c' r']; [done|].
  destruct (is_space c') eqn:Hc'; [done|].
  pose proof (split_cons_nonspace c' r' Hc').
  by destruct (split (c' :: r')).
Qed.

Lemma ink_strip s : ink (strip s) = ink s.
Proof. by rewrite <- !concat_split, split_strip. Qed.

Lemma ink_join_words ws :
  Forall is_word ws -> ink (join [32] ws) = concat ws.
Proof. intros Hws. by rewrite <- concat_split, split_join_words. Qed.

Lemma lstrip_start s : span is_space (lstrip s) = O.
Proof.
  induction s as [|c r IH]; [done|]. simpl.
  destruct (is_space c) eqn:Hc; [done|]. simpl. by rewrite Hc.
Qed.

Lemma rstrip_start s : span is_space s = O -> span is_space (rstrip s) = O.
Proof.
  destruct s as [|c r]; [done|]. simpl.
  destruct (is_space c) eqn:Hc; [done|]. intros _.
  destruct (rstrip r); simpl; by rewrite Hc.
Qed.

Lemma strip_start s : span is_space (strip s) = O.
Proof. apply rstrip_start, lstrip_start. Qed.

Lemma lstrip_id s : span is_space s = O -> lstrip s = s.
Proof.
  destruct s as [|c r]; [done|]. simpl. by destruct (is_space c).
Qed.

Lemma rstrip_idemp s : rstrip (rstrip s) = rstrip s.
Proof.
  induction s as [|c r IH]; [done|]. simpl.
  destruct (rstrip r) as [|c' r'] eqn:Hr.
  - destruct (is_space c) eqn:Hc; [done|]. simpl. by rewrite Hc.
  - simpl. simpl in IH. rewrite IH. done.
Qed.

Lemma strip_idemp s : strip (strip s) = strip s.
Proof.
  unfold strip at 1. rewrite lstrip_id by apply strip_start.
  unfold strip. apply rstrip_idemp.
Qed.

Lemma strip_cons_space c s : is_space c = true -> strip (c :: s) = strip s.
Proof. intros Hc. unfold strip. simpl. by rewrite Hc. Qed.

Lemma rstrip_all_space s :
  Forall (fun c => is_space c = true) s -> rstrip s = [].
Proof. induction 1 as [|c s Hc Hs IH]; [done|]. simpl. by rewrite IH, Hc. Qed.

Lemma rstrip_app_space s sp :
  Forall (fun c => is_space c = true) sp -> rstrip (s ++ sp) = rstrip s.
Proof.
  intros Hsp. induction s as [|c r IH]; [by apply rstrip_all_space|].
  simpl. by rewrite IH.
Qed.

Lemma lstrip_app s t : span is_space s = O -> s <> [] -> lstrip (s ++ t) = s ++ t.
Proof.
  destruct s as [|c r]; [done|]. simpl. by destruct (is_space c).
Qed.

Lemma strip_app_space s sp :
  Forall (fun c => is_space c = true) sp -> strip (s ++ sp) = strip s.
Proof.
  intros Hsp. induction s as [|c r IH].
  - simpl. unfold strip.
    assert (lstrip sp = []) as ->; [|done].
    induction Hsp as [|c sp Hc _ IH']; [done|]. simpl. by rewrite Hc.
  - destruct (is_space c) eqn:Hc.
    + change ((c :: r) ++ sp) with (c :: (r ++ sp)).
      by rewrite !strip_cons_space.
    + unfold strip. simpl. rewrite Hc.
      change (c :: r ++ sp) with ((c :: r) ++ sp).
      by rewrite rstrip_app_space.
Qed.

End StrFacts.

(** ** format.py: segmentation, truncation, renumbering *)

Module FormatMore.
Import Py PyFacts Format MarkerFacts FormatFacts SeparatorFacts StrFacts.

(** *** [_split_into_steps] *)

Lemma search_nonempty text : step_pattern_search text = true -> text <> [].
Proof. by intros Hs ->. Qed.

Lemma split_line_nonempty st line :
  Forall (fun s => s <> []) (fst st) ->
  Forall (fun s => s <> []) (fst (split_line st line)).
Proof.
  destruct st as [parts cur]. unfold split_line. simpl. intros Hparts.
  destruct (step_pattern_match line || _); simpl; [|done].
  destruct cur; simpl; [done|]. apply Forall_app. split; [done|].
  by repeat constructor.
Qed.

Lemma fold_split_line_nonempty lines st :
  Forall (fun s => s <> []) (fst st) ->
  Forall (fun s => s <> []) (fst (fold_left split_line lines st)).
Proof.
  revert st. induction lines as [|l lines IH]; intros st Hst; [done|].
  simpl. by apply IH, split_line_nonempty.
Qed.

Lemma nonempty_true (s : list N) : nonempty s = true -> s <> [].
Proof. by destruct s. Qed.

(** X1. No step is the empty string. *)
Theorem split_into_steps_nonempty text :
  Forall (fun step => step <> []) (_split_into_steps text).
Proof.
  unfold _split_into_steps.
  destruct (step_pattern_search text) eqn:Hsearch.
  - pose proof (fold_split_line_nonempty (split_on [nl] text) ([], [])
                  (Forall_nil_2 _)) as Hfold.
    destruct (fold_left split_line (split_on [nl] text) ([], []))
      as [parts cur]. simpl in Hfold.
    assert (Forall (fun s : list N => s <> [])
              (if nonempty cur then parts ++ [cur] else parts)) as Hfinal.
    { destruct cur; simpl; [done|]. apply Forall_app. split; [done|].
      by repeat constructor. }
    destruct (if nonempty cur then parts ++ [cur] else parts); [|done].
    repeat constructor. by apply search_nonempty.
  - apply Forall_forall. intros step Hstep.
    apply list_elem_of_fmap in Hstep as (line & -> & Hline).
    apply list_elem_of_filter in Hline as [Hne _].
    apply nonempty_true. by apply Is_true_eq_true.
Qed.

Lemma split_line_words st line :
  concat (map split (fst (split_line st line))) ++ split (snd (split_line st line))
  = (concat (map split (fst st)) ++ split (snd st)) ++ split line.
Proof.
  destruct st as [parts cur]. unfold split_line. simpl.
  destruct (step_pattern_match line || _); simpl.
  - destruct cur as [|c cur]; simpl nonempty; cbv iota.
    + by rewrite app_nil_r.
    + rewrite map_app, concat_app. simpl concat. by rewrite app_nil_r.
  - destruct cur as [|c cur]; simpl nonempty; cbv iota.
    + by rewrite !app_nil_r.
    + change ((c :: cur) ++ [nl] ++ line) with ((c :: cur) ++ nl :: line).
      rewrite split_app_space by done. by rewrite app_assoc.
Qed.

Lemma fold_split_line_words lines st :
  concat (map split (fst (fold_left split_line lines st)))
    ++ split (snd (fold_left split_line lines st))
  = (concat (map split (fst st)) ++ split (snd st))
      ++ concat (map split lines).
Proof.
  revert st. induction lines as [|l lines IH]; intros st.
  - simpl. by rewrite app_nil_r.
  - simpl. rewrite IH, split_line_words. by rewrite <- app_assoc.
Qed.

Lemma strip_nil_split s : nonempty (strip s) = false -> split s = [].
Proof.
  intros Hs. rewrite <- split_strip. by destruct (strip s).
Qed.

Lemma lines_words text :
  concat (map split (split_on [nl] text)) = split text.
Proof.
  rewrite <- split_join_lines. by rewrite join_split_on.
Qed.

Lemma steps_words text :
  concat (map split (_split_into_steps text)) = split text.
Proof.
  unfold _split_into_steps.
  destruct (step_pattern_search text) eqn:Hsearch.
  - pose proof (fold_split_line_words (split_on [nl] text) ([], [])) as Hfold.
    rewrite lines_words in Hfold. simpl in Hfold.
    destruct (fold_left split_line (split_on [nl] text) ([], []))
      as [parts cur]. simpl in Hfold.
    destruct cur as [|c cur]; simpl nonempty; cbv iota.
    + rewrite app_nil_r in Hfold.
      destruct parts; [simpl; by rewrite app_nil_r|done].
    + destruct (parts ++ [c :: cur]) eqn:Happ.
      { by destruct parts. }
      rewrite <- Happ, map_app, concat_app. simpl. by rewrite app_nil_r.
  - rewrite <- lines_words.
    induction (split_on [nl] text) as [|l lines IH]; [done|].
    destruct (nonempty (strip l)) eqn:Hl.
    + rewrite filter_cons_True by (by apply Is_true_true).
      simpl. by rewrite split_strip, IH.
    + rewrite filter_cons_False by (by intros ?%Is_true_true; congruence).
      simpl. by rewrite (strip_nil_split l), IH.
Qed.

(** X2. Segmentation loses no word and invents none: the words of the steps,
    in order, are the words of the text. *)
Theorem split_into_steps_words text :
  concat (map split (_split_into_steps text)) = split text.
Proof. apply steps_words. Qed.

(** *** [_enforce_step] *)

Lemma content_of_ink step :
  ink step = ink (marker_of step) ++ ink (content_of step).
Proof.
  destruct (marker_match step) as [n|] eqn:Hn.
  - destruct (marker_of_length _ _ Hn) as [Hm Hlen].
    rewrite (content_of_marked _ _ Hn), Hm, ink_strip, <- ink_app.
    by rewrite take_drop.
  - rewrite content_of_unmarked by done. unfold marker_of. by rewrite Hn.
Qed.

Lemma slice_to_prefix {A} n (l : list A) : slice_to n l `prefix_of` l.
Proof. unfold slice_to. destruct (0 <=? n)%Z; apply prefix_take. Qed.

Lemma concat_prefix {A} (l1 l2 : list (list A)) :
  l1 `prefix_of` l2 -> concat l1 `prefix_of` concat l2.
Proof. intros [k ->]. rewrite concat_app. by apply prefix_app_r. Qed.

Lemma enforce_step_ink step max_words :
  ink (_enforce_step step max_words) `prefix_of` ink step.
Proof.
  unfold _enforce_step.
  destruct (Z.of_nat (length (split step)) <=? max_words)%Z; [done|].
  rewrite ink_app, (content_of_ink step). apply prefix_app.
  rewrite ink_join_words by apply slice_to_words, split_words.
  rewrite <- concat_split. apply concat_prefix, slice_to_prefix.
Qed.

(** X3. Enforcement never adds, changes or reorders a non-whitespace code
    point: what is left of a step is a prefix of what was there. *)
Theorem enforce_step_ink_prefix step max_words :
  ink (_enforce_step step max_words) `prefix_of` ink step.
Proof. apply enforce_step_ink. Qed.

Lemma slice_to_all {A} n (l : list A) :
  (Z.of_nat (length l) <= n)%Z -> slice_to n l = l.
Proof.
  intros Hn. unfold slice_to.
  destruct (0 <=? n)%Z eqn:H0; [|lia]. apply take_ge. lia.
Qed.

(** X4. Enforcing twice is enforcing once. *)
Theorem enforce_step_idempotent step max_words :
  (0 <= max_words)%Z ->
  _enforce_step (_enforce_step step max_words) max_words
  = _enforce_step step max_words.
Proof.
  intros Hmax.
  destruct (Z.of_nat (length (split step)) <=? max_words)%Z eqn:Hc.
  { rewrite !(enforce_step_within step) by lia. done. }
  assert (_enforce_step step max_words
          = marker_of step
            ++ join [32] (slice_to max_words (split (content_of step)))) as ->.
  { unfold _enforce_step. by rewrite Hc. }
  set (words := slice_to max_words (split (content_of step))).
  set (truncated := join [32] words).
  assert (Forall is_word words) as Hws by apply slice_to_words, split_words.
  assert (split truncated = words) as Hsplit by (by apply split_join_words).
  assert (span is_space truncated = O) as Hstart by (by apply join_words_start).
  assert (Z.of_nat (length words) <= max_words)%Z as Hlen
    by (by apply slice_to_length).
  destruct (marker_match step) as [n|] eqn:Hn.
  - destruct (marker_of_length _ _ Hn) as [Hm Hn'].
    destruct (marker_match_stable step n truncated Hstart Hn) as [Hn'' _].
    rewrite Hm. unfold _enforce_step.
    destruct (Z.of_nat (length (split (take n step ++ truncated)))
              <=? max_words)%Z; [done|].
    destruct (marker_of_length _ _ Hn'') as [-> _].
    rewrite (content_of_marked _ _ Hn'').
    rewrite take_app_length' by (rewrite length_take_le; lia).
    rewrite drop_app_length' by (rewrite length_take_le; lia).
    rewrite split_strip, Hsplit, slice_to_all by done. done.
  - unfold marker_of. rewrite Hn, app_nil_l.
    apply enforce_step_within. by rewrite Hsplit.
Qed.

Lemma enforce_step_idempotent_witness :
  _enforce_step (_enforce_step Samples.fox 3) 3 = lit "1. The quick brown"
  /\ _enforce_step (_enforce_step Samples.fox 3) 3 = _enforce_step Samples.fox 3.
Proof.
  assert (_enforce_step (_enforce_step Samples.fox 3) 3
          = _enforce_step Samples.fox 3) as Hidem
    by (apply enforce_step_idempotent; lia).
  split; [|exact Hidem]. rewrite Hidem. vm_compute. reflexivity.
Defined.

End FormatMore.

Module EnforceMore.
Import Py PyFacts Format MarkerFacts FormatFacts StrFacts FormatMore.

Lemma ink_join_lines parts : ink (join [nl] parts) = concat (map ink parts).
Proof.
  rewrite <- concat_split, split_join_lines.
  induction parts as [|p parts IH]; [done|].
  simpl. by rewrite concat_app, concat_split, IH.
Qed.

Lemma ink_steps text : concat (map ink (_split_into_steps text)) = ink text.
Proof.
  rewrite <- (concat_split text), <- steps_words.
  induction (_split_into_steps text) as [|s steps IH]; [done|].
  simpl. by rewrite concat_app, concat_split, IH.
Qed.

(** X5. Enforcement only deletes: the non-whitespace code points of the
    output are, in order, among those of the input. *)
Theorem enforce_word_limit_only_deletes text max_words :
  ink (enforce_word_limit text max_words) `sublist_of` ink text.
Proof.
  unfold enforce_word_limit. rewrite ink_join_lines, <- ink_steps.
  induction (_split_into_steps text) as [|s steps IH]; [done|].
  simpl. apply sublist_app; [|done].
  destruct (enforce_step_ink s max_words) as [k ->].
  by apply sublist_inserts_r.
Qed.

(** X6. When every step has at most [max_words] words, marker included, the
    output is the steps joined by newlines, as they were, and it has the
    words of the input. *)
Theorem enforce_word_limit_keeps_short text max_words :
  Forall (fun step => (Z.of_nat (length (split step)) <= max_words)%Z)
         (_split_into_steps text) ->
  enforce_word_limit text max_words = join [nl] (_split_into_steps text)
  /\ split (enforce_word_limit text max_words) = split text.
Proof.
  intros Hshort.
  assert (enforce_word_limit text max_words = join [nl] (_split_into_steps text))
    as Hsame.
  { unfold enforce_word_limit. f_equal.
    induction Hshort as [|s steps Hs Hsteps IH]; [done|].
    simpl. by rewrite enforce_step_within, IH. }
  split; [done|].
  by rewrite Hsame, split_join_lines, steps_words.
Qed.

Lemma enforce_word_limit_keeps_short_witness :
  split (enforce_word_limit Samples.two_lines 4) = split Samples.two_lines.
Proof.
  apply enforce_word_limit_keeps_short.
  vm_compute. repeat constructor; discriminate.
Defined.

End EnforceMore.

(** ** format.py: the adherence report and the renumbering *)

Module AdherenceMore.
Import Py PyFacts Format MarkerFacts FormatFacts SeparatorFacts StrFacts ComplexityClaims.

Lemma within_limit_all_iff n counts :
  within_limit n counts = length counts
  <-> Forall (fun count => (Z.of_nat count <= n)%Z) counts.
Proof.
  split; [|apply within_limit_all].
  unfold within_limit. induction counts as [|c cs IH]; [done|].
  destruct (decide (Z.of_nat c <= n)%Z) as [Hc|Hc].
  - rewrite filter_cons_True by done. simpl. intros [= Hlen].
    constructor; [done|]. by apply IH.
  - rewrite filter_cons_False by done. simpl. intros Hlen.
    pose proof (length_filter (fun count => (Z.of_nat count <= n)%Z) cs). lia.
Qed.

Lemma max_bound_iff n counts :
  (0 <= n)%Z ->
  (Z.of_nat (foldr Nat.max O counts) <= n)%Z
  <-> Forall (fun count => (Z.of_nat count <= n)%Z) counts.
Proof.
  intros Hn. induction counts as [|c cs IH]; simpl.
  - split; [constructor|lia].
  - rewrite Forall_cons, <- IH. lia.
Qed.

Lemma Qnat_ratio_one_iff a b :
  (0 < b)%nat -> (Qnat a / Qnat b == 1)%Q <-> a = b.
Proof.
  intros Hb. split; [|intros ->; by apply Qnat_ratio_one].
  intros Heq. unfold Qnat, Qdiv, Qeq in Heq. simpl in Heq.
  destruct b as [|b]; [lia|]. simpl in Heq.
  rewrite Z.mul_1_r in Heq. lia.
Qed.

(** X7. For a limit [N >= 0] the adherence rate is 1.0 exactly when the
    longest step has at most [N] words. *)
Theorem adherence_rate_one_iff_max text N :
  (0 <= N)%Z ->
  (adherence_rate (analyze_adherence text N) == 1)%Q
  <-> (Z.of_nat (max_words_in_any_step (analyze_adherence text N)) <= N)%Z.
Proof.
  intros HN. rewrite adherence_rate_unfold.
  unfold analyze_adherence. cbn [max_words_in_any_step].
  destruct (_split_into_steps text) as [|s steps] eqn:Hs.
  { rewrite bool_decide_true by done. simpl. split; [lia|done]. }
  rewrite bool_decide_false by done. cbv zeta.
  rewrite Qnat_ratio_one_iff by (simpl; lia).
  rewrite max_bound_iff by done.
  rewrite <- within_limit_all_iff. by rewrite length_map.
Qed.

Lemma within_limit_mono n n' counts :
  (n <= n')%Z -> (within_limit n counts <= within_limit n' counts)%nat.
Proof.
  intros Hn. unfold within_limit. induction counts as [|c cs IH]; [done|].
  destruct (decide (Z.of_nat c <= n)%Z) as [Hc|Hc].
  - rewrite !filter_cons_True by lia. simpl. lia.
  - rewrite (filter_cons_False _ c cs Hc).
    destruct (decide (Z.of_nat c <= n')%Z) as [Hc'|Hc'].
    + rewrite filter_cons_True by done. simpl. lia.
    + by rewrite filter_cons_False.
Qed.

Lemma Qnat_ratio_mono a a' b :
  (a <= a')%nat -> (0 < b)%nat -> (Qnat a / Qnat b <= Qnat a' / Qnat b)%Q.
Proof.
  intros Ha Hb. unfold Qdiv. apply Qmult_le_compat_r.
  - unfold Qnat. rewrite <- Zle_Qle. lia.
  - apply Qinv_le_0_compat. apply Qnat_nonneg.
Qed.

(** X8. A larger limit never lowers the number of steps within the limit nor
    the adherence rate. *)
Theorem adherence_monotone text N N' :
  (N <= N')%Z ->
  (steps_within_limit (analyze_adherence text N)
   <= steps_within_limit (analyze_adherence text N'))%nat
  /\ (adherence_rate (analyze_adherence text N)
      <= adherence_rate (analyze_adherence text N'))%Q.
Proof.
  intros HN. split.
  - by apply within_limit_mono.
  - rewrite !adherence_rate_unfold.
    destruct (_split_into_steps text) as [|s steps]; [done|]. cbv zeta.
    apply Qnat_ratio_mono; [by apply within_limit_mono|simpl; lia].
Qed.

Lemma sum_le_max counts :
  (foldr Nat.add O counts <= length counts * foldr Nat.max O counts)%nat.
Proof.
  induction counts as [|c cs IH]; simpl; [lia|].
  pose proof (Nat.le_max_l c (foldr Nat.max O cs)).
  pose proof (Nat.le_max_r c (foldr Nat.max O cs)).
  nia.
Qed.

Lemma max_upper counts c :
  c ∈ counts -> (c <= foldr Nat.max O counts)%nat.
Proof.
  induction 1 as [c cs|c c' cs _ IH]; simpl; lia.
Qed.

(** X9. The fields of the report agree with each other: one count per step,
    no more steps within the limit than steps, no count above the
    maximum, and the average not above the maximum. *)
Theorem adherence_report_consistent text N :
  let report := analyze_adherence text N in
  length (step_counts report) = total_steps report
  /\ (steps_within_limit report <= total_steps report)%nat
  /\ (forall count, count ∈ step_counts report ->
        (count <= max_words_in_any_step report)%nat)
  /\ (average_words_per_step report
      <= Qnat (max_words_in_any_step report))%Q.
Proof.
  unfold analyze_adherence. cbn.
  split_and!.
  - by rewrite length_map.
  - etrans; [apply within_limit_le|]. by rewrite length_map.
  - intros count Hcount.
    destruct (_split_into_steps text) as [|s steps] eqn:Hs.
    { simpl in Hcount. by apply elem_of_nil in Hcount. }
    rewrite bool_decide_false by done. by apply max_upper.
  - destruct (_split_into_steps text) as [|s steps] eqn:Hs.
    { by rewrite bool_decide_true. }
    rewrite !bool_decide_false by done.
    set (counts := map step_count (s :: steps)).
    assert (length (s :: steps) = length counts) as ->
      by (unfold counts; by rewrite length_map).
    assert (0 < length counts)%nat as Hpos by (unfold counts; simpl; lia).
    apply Qle_shift_div_r.
    { unfold Qnat. rewrite <- (Zlt_Qlt 0). lia. }
    pose proof (sum_le_max counts) as Hsum.
    unfold Qnat. rewrite <- inject_Z_mult, <- Zle_Qle. nia.
Qed.

(** *** [format_to_numbered_steps] *)

Lemma uint_codes_decimal d :
  Forall (fun c => is_decimal c = true) (uint_codes d).
Proof. induction d; simpl; constructor; done. Qed.

Lemma uint_codes_nonnil d : d <> Decimal.Nil -> uint_codes d <> [].
Proof. by destruct d. Qed.

Lemma str_of_nat_digits n :
  str_of_nat n <> [] /\ Forall (fun c => is_decimal c = true) (str_of_nat n).
Proof.
  split; [|apply uint_codes_decimal].
  apply uint_codes_nonnil. intros Hnil.
  pose proof (DecimalNat.Unsigned.of_to n) as Hn.
  rewrite Hnil in Hn. simpl in Hn. by subst n.
Qed.

Lemma numbered_content_strip step :
  numbered_content step = strip (content_of step).
Proof.
  unfold numbered_content. destruct (marker_match step) as [n|] eqn:Hn.
  - destruct (marker_of_length _ _ Hn) as [Hm Hlen].
    rewrite (content_of_marked _ _ Hn), strip_idemp, Hm.
    by rewrite length_take_le by lia.
  - by rewrite content_of_unmarked.
Qed.

(** The number put in front is recognised as the marker, whatever the
    content. *)
Lemma numbered_marker i content :
  span is_space content = O ->
  marker_match (str_of_nat i ++ lit ". " ++ content)
  = Some (length (str_of_nat i) + 2)%nat.
Proof.
  intros Hc. destruct (str_of_nat_digits i) as [Hne Hdec].
  change (lit ". " ++ content) with (46 :: 32 :: content).
  assert (re_number (str_of_nat i ++ 46 :: 32 :: content)
          = Some (length (str_of_nat i) + 2)%nat) as Hnum.
  { unfold re_number. cbv zeta.
    assert (span is_decimal (str_of_nat i ++ 46 :: 32 :: content)
            = length (str_of_nat i)) as ->.
    { rewrite span_app by done. simpl. lia. }
    destruct (length (str_of_nat i)) as [|k] eqn:Hlen.
    { by destruct (str_of_nat i). }
    rewrite (drop_app_length' _ _ (S k)) by done.
    change (46 =? 46) with true. cbv iota. simpl span.
    rewrite Hc. f_equal. lia. }
  unfold marker_match, orelse. by rewrite Hnum.
Qed.

Lemma numbered_step_words i step :
  split (numbered_step i step)
  = (str_of_nat i ++ lit ".") :: split (content_of step).
Proof.
  unfold numbered_step. rewrite numbered_content_strip.
  change (str_of_nat i ++ lit ". " ++ strip (content_of step))
    with (str_of_nat i ++ [46] ++ 32 :: strip (content_of step)).
  rewrite app_assoc.
  destruct (str_of_nat_digits i) as [Hne Hdec].
  rewrite split_word_app.
  - by rewrite split_cons_space, split_strip.
  - split; [by destruct (str_of_nat i)|].
    apply Forall_app. split.
    + eapply Forall_impl; [exact Hdec|]. intros c. apply decimal_not_space.
    + by repeat constructor.
  - done.
Qed.

(** X10. Renumbering goes step by step: the output is the newline-join
    of one entry per step (an entry keeps the inner newlines of a step
    that spans several lines), and its words are, step by step, the
    number [i] with a dot and then the words of the content of the
    [i]-th step. The [i]-th entry is the number [i], [". "], and the
    stripped content of the [i]-th step; read again, the marker of the
    entry is that number with [". "], its content is the stripped
    content of the step, and its content has as many words as the
    content of the step. *)
Theorem format_to_numbered_steps_content text :
  let steps := _split_into_steps text in
  let numbered := imap (fun i step => numbered_step (S i) step) steps in
  format_to_numbered_steps text = join [nl] numbered
  /\ length numbered = length steps
  /\ split (format_to_numbered_steps text)
     = concat (imap (fun i step =>
                       (str_of_nat (S i) ++ lit ".") :: split (content_of step))
                    steps)
  /\ forall i step,
       steps !! i = Some step ->
       numbered !! i
       = Some (str_of_nat (S i) ++ lit ". " ++ strip (content_of step))
       /\ marker_of (numbered_step (S i) step) = str_of_nat (S i) ++ lit ". "
       /\ content_of (numbered_step (S i) step) = strip (content_of step)
       /\ step_count (numbered_step (S i) step) = step_count step.
Proof.
  intros steps numbered. split; [done|]. split.
  { unfold numbered. by rewrite length_imap. }
  split.
  { unfold format_to_numbered_steps. cbv zeta. rewrite split_join_lines.
    f_equal. rewrite fmap_imap. apply imap_ext.
    intros i step _. apply numbered_step_words. }
  intros i step Hi.
  assert (marker_match (numbered_step (S i) step)
          = Some (length (str_of_nat (S i)) + 2)%nat) as Hm.
  { unfold numbered_step. rewrite numbered_content_strip.
    apply numbered_marker, strip_start. }
  assert (take (length (str_of_nat (S i)) + 2) (numbered_step (S i) step)
          = str_of_nat (S i) ++ lit ". ") as Htake.
  { unfold numbered_step. rewrite app_assoc.
    rewrite take_app_length'; [done|]. by rewrite length_app. }
  assert (content_of (numbered_step (S i) step) = strip (content_of step))
    as Hcontent.
  { rewrite (content_of_marked _ _ Hm). unfold numbered_step.
    rewrite app_assoc, drop_app_length' by (by rewrite length_app).
    by rewrite numbered_content_strip, strip_idemp. }
  split_and!.
  - unfold numbered. rewrite list_lookup_imap, Hi. simpl.
    unfold numbered_step. by rewrite numbered_content_strip.
  - unfold marker_of. by rewrite Hm.
  - done.
  - unfold step_count. by rewrite Hcontent, split_strip.
Qed.

Lemma adherence_rate_one_iff_max_witness :
  (adherence_rate (analyze_adherence Samples.spaced 2) == 1)%Q.
Proof.
  apply (adherence_rate_one_iff_max Samples.spaced 2); [lia|].
  vm_compute. discriminate.
Defined.

Lemma adherence_monotone_witness :
  (steps_within_limit (analyze_adherence Samples.two_lines 1)
   <= steps_within_limit (analyze_adherence Samples.two_lines 3))%nat
  /\ (adherence_rate (analyze_adherence Samples.two_lines 1)
      <= adherence_rate (analyze_adherence Samples.two_lines 3))%Q.
Proof. apply adherence_monotone. lia. Defined.

Lemma adherence_report_consistent_witness :
  (10 <= max_words_in_any_step (analyze_adherence Samples.fox 5))%nat.
Proof.
  destruct (adherence_report_consistent Samples.fox 5) as (_ & _ & Hmax & _).
  apply Hmax. vm_compute. left.
Defined.

Lemma format_to_numbered_steps_content_witness :
  content_of (numbered_step 2 (lit "Step 7: halve it")) = lit "halve it"
  /\ marker_of (numbered_step 2 (lit "Step 7: halve it")) = lit "2. ".
Proof.
  destruct (format_to_numbered_steps_content
              (lit "- add two" ++ [nl] ++ lit "Step 7: halve it"))
    as (_ & _ & _ & Hsteps).
  destruct (Hsteps 1%nat (lit "Step 7: halve it")) as (_ & Hmarker & Hcontent & _);
    [vm_compute; reflexivity|].
  rewrite Hmarker, Hcontent. split; vm_compute; reflexivity.
Defined.

End AdherenceMore.

(** ** complexity.py: the estimate and the base limit *)

Module ComplexityMore.
Import Py Complexity ComplexityClaims.

Lemma round_ge_floor x : (Qfloor x <= round x)%Z.
Proof.
  unfold round. destruct (x - inject_Z (Qfloor x) ?= 1 # 2)%Q; try lia.
  destruct (Z.even (Qfloor x)); lia.
Qed.

Lemma round_scaled_ge b x : (0 <= b)%Z -> (1 <= x)%Q -> (b <= round (inject_Z b * x))%Z.
Proof.
  intros Hb Hx. etrans; [|apply round_ge_floor].
  rewrite <- (Qfloor_Z b) at 1. apply Qfloor_resp_le.
  rewrite <- (Qmult_1_l (inject_Z b)) at 1.
  rewrite (Qmult_comm (inject_Z b) x).
  apply Qmult_le_compat_r; [done|]. by rewrite <- (Zle_Qle 0).
Qed.

Lemma clamp_mono a b : (a <= b)%Z -> (clamp a <= clamp b)%Z.
Proof. unfold clamp. lia. Qed.

Section Base.
Context `{CaseTable}.
Variable self : ComplexityEstimator.

Lemma impact_factor_ge_1 problem domain :
  (1 <= impact_factor self problem domain)%Q.
Proof.
  unfold impact_factor.
  eapply Qle_trans; [|apply Q.le_max_r].
  eapply Qle_trans; [|apply Q.le_max_l].
  apply indicator_factor_of_range.
Qed.

(** X11. The factors never lower the limit: the estimate is at least the base
    limit of the domain, brought into [3, 10]. *)
Theorem estimate_not_below_base problem domain :
  (clamp (base_limit self domain) <= estimate_complexity self problem domain)%Z.
Proof.
  unfold estimate_complexity. cbv zeta.
  destruct (Z_le_gt_dec 0 (base_limit self domain)) as [Hb|Hb].
  - apply clamp_mono, round_scaled_ge; [done|].
    apply impact_factor_ge_1.
  - unfold clamp. lia.
Qed.

(** X13. In every domain but ["math"] and ["code"] the breakdown of
    [analyze_problem] reports the very number [estimate_complexity]
    returns. *)
Theorem analyze_problem_agrees_elsewhere problem domain :
  lower domain <> lit "math" -> lower domain <> lit "code" ->
  estimated_complexity (analyze_problem self problem domain)
  = estimate_complexity self problem domain.
Proof.
  intros Hmath Hcode. apply analyze_problem_agrees.
  unfold domain_factor.
  by rewrite !bool_decide_false.
Qed.

End Base.

Lemma init_base_limits :
  map_Forall (fun _ v => (4 <= v <= 8)%Z) (domain_base_limits init).
Proof.
  intros k v Hkv. unfold init in Hkv. cbn [domain_base_limits] in Hkv.
  apply elem_of_list_to_map_2 in Hkv.
  eapply (proj1 (Forall_forall (fun kv : list N * Z => (4 <= snd kv <= 8)%Z) _))
    in Hkv; [exact Hkv|].
  repeat constructor; simpl; lia.
Qed.

(** X12. With the tables of [__init__] the base limit of every domain, known
    or not, lies in [4, 8], and the estimate lies between that base limit
    and 10. *)
Theorem shipped_estimate_between_base_and_ten `{CaseTable} problem domain :
  (4 <= base_limit init domain <= 8)%Z
  /\ (base_limit init domain <= estimate_complexity init problem domain <= 10)%Z.
Proof.
  assert (4 <= base_limit init domain <= 8)%Z as Hbase.
  { unfold base_limit.
    destruct (domain_base_limits init !! lower domain) as [v|] eqn:Hv;
      simpl; [|lia].
    by apply init_base_limits in Hv. }
  split; [done|]. split; [|apply clamp_range].
  unfold estimate_complexity. cbv zeta.
  etrans; [|apply clamp_mono, round_scaled_ge; [lia|apply impact_factor_ge_1]].
  unfold clamp. lia.
Qed.

Lemma analyze_problem_agrees_elsewhere_witness :
  estimated_complexity
    (@analyze_problem ascii_lower init (lit "Is it so? Why?") (lit "Logic"))
  = @estimate_complexity ascii_lower init (lit "Is it so? Why?") (lit "Logic").
Proof.
  apply (@analyze_problem_agrees_elsewhere ascii_lower init);
    vm_compute; discriminate.
Defined.

End ComplexityMore.

(** ** analytics.py *)

Module AnalyticsMore.
Import Py PyFacts Format StrFacts Analytics.

Lemma strip_lead_space sp s :
  Forall (fun c => is_space c = true) sp -> strip (sp ++ s) = strip s.
Proof.
  induction 1 as [|c sp Hc _ IH]; [done|].
  change ((c :: sp) ++ s) with (c :: (sp ++ s)).
  by rewrite strip_cons_space.
Qed.

Section Check.
Context `{CaseTable}.

(** X14. The correctness check gives no verdict exactly when an argument is
    [None] or empty; otherwise its verdict is symmetric in its two
    arguments, is 1 for equal arguments, and does not change when
    whitespace is put around an argument. *)
Theorem check_correctness_verdict answer expected :
  (_check_correctness answer expected = None
   <-> answer = None \/ answer = Some [] \/ expected = None \/ expected = Some [])
  /\ _check_correctness answer expected = _check_correctness expected answer
  /\ (forall a, a <> [] -> _check_correctness (Some a) (Some a) = Some 1%Z)
  /\ (forall a before after,
        a <> [] ->
        Forall (fun c => is_space c = true) before ->
        Forall (fun c => is_space c = true) after ->
        _check_correctness (Some (before ++ a ++ after)) expected
        = _check_correctness (Some a) expected).
Proof.
  split_and!.
  - unfold _check_correctness.
    destruct answer as [[|a answer]|], expected as [[|e expected]|];
      try (split; [intros _; eauto | done]).
    split.
    + by destruct (bool_decide _).
    + intros [?|[?|[?|?]]]; done.
  - unfold _check_correctness.
    destruct answer as [[|a answer]|], expected as [[|e expected]|]; try done.
    destruct (decide (lower (strip (a :: answer)) = lower (strip (e :: expected))))
      as [Heq|Hne].
    + rewrite !bool_decide_true; done.
    + rewrite !bool_decide_false; done.
  - intros [|a0 a] Ha; [done|]. simpl. by rewrite bool_decide_true.
  - intros a before after Ha Hb Hafter.
    assert (strip (before ++ a ++ after) = strip a) as Hstrip.
    { rewrite strip_lead_space by done. by apply strip_app_space. }
    unfold _check_correctness.
    destruct a as [|a0 a]; [done|].
    destruct (before ++ (a0 :: a) ++ after) as [|c r] eqn:Hpad.
    { by destruct before. }
    destruct expected as [[|e expected]|]; try done.
    by rewrite Hstrip.
Qed.

End Check.

Lemma check_correctness_verdict_witness :
  @_check_correctness ascii_lower (Some (lit "  8 Lollipops "))
    (Some (lit "8 lollipops"))
  = Some 1%Z.
Proof.
  change (lit "  8 Lollipops ") with (lit "  " ++ lit "8 Lollipops" ++ lit " ").
  transitivity (@_check_correctness ascii_lower (Some (lit "8 Lollipops"))
                  (Some (lit "8 lollipops"))).
  - destruct (@check_correctness_verdict ascii_lower
                (Some (lit "  " ++ lit "8 Lollipops" ++ lit " "))
                (Some (lit "8 lollipops"))) as (_ & _ & _ & Hpad).
    apply (Hpad (lit "8 Lollipops") (lit "  ") (lit " "));
      [vm_compute; discriminate | vm_compute; repeat constructor
      | vm_compute; repeat constructor].
  - vm_compute. reflexivity.
Defined.

End AnalyticsMore.

(** ** reasoning.py: the preferences *)

Module PreferencesMore.
Import Py Effects Reasoning Samples.

(** The entry of [domain] after the two conditional assignments of
    [update_preferences], given the entry [p] before them. *)
Lemma update_preferences_lookup self domain c a self' :
  update_preferences self domain c a = inr self' ->
  exists p,
    (default_preferences self !! domain = Some p
     \/ (default_preferences self !! domain = None
         /\ default_preferences self !! lit "default" = Some p))
    /\ default_preferences self' !! domain
       = Some {| complexity_threshold := default (complexity_threshold p) c;
                 accuracy_threshold := default (accuracy_threshold p) a |}
    /\ forall other, other <> domain ->
         default_preferences self' !! other = default_preferences self !! other.
Proof.
  unfold update_preferences.
  destruct (default_preferences self !! domain) as [p|] eqn:Hd.
  - intros [= <-]. exists p. split; [by left|]. cbn [default_preferences].
    split.
    + destruct c as [c|], a as [a|]; cbn [default];
        rewrite ?lookup_alter_eq, ?Hd; simpl; try done.
      by destruct p.
    + intros other Hne.
      destruct c as [c|], a as [a|]; by rewrite ?lookup_alter_ne.
  - destruct (default_preferences self !! lit "default") as [p|] eqn:Hdef;
      [|done].
    intros [= <-]. exists p. split; [by right|]. cbn [default_preferences].
    split.
    + destruct c as [c|], a as [a|]; cbn [default];
        rewrite ?lookup_alter_eq, ?lookup_insert_eq; simpl; try done.
      by destruct p.
    + intros other Hne.
      destruct c as [c|], a as [a|];
        by rewrite ?lookup_alter_ne, ?lookup_insert_ne.
Qed.

(** X15. With a ["default"] entry in place, [update_preferences] succeeds, and
    [get_preferences] of the domain then gives the thresholds that were
    supplied and, for a threshold that was not, what it gave before. *)
Theorem update_then_get_preferences self domain c a fallback :
  default_preferences self !! lit "default" = Some fallback ->
  domain <> [] ->
  exists self' before,
    update_preferences self domain c a = inr self'
    /\ get_preferences self (Some domain) = inr (inl before)
    /\ get_preferences self' (Some domain)
       = inr (inl {| complexity_threshold := default (complexity_threshold before) c;
                     accuracy_threshold := default (accuracy_threshold before) a |}).
Proof.
  intros Hdef Hne.
  destruct (update_preferences self domain c a) as [e|self'] eqn:Hup.
  { unfold update_preferences in Hup. rewrite Hdef in Hup.
    by destruct (default_preferences self !! domain). }
  destruct (update_preferences_lookup _ _ _ _ _ Hup)
    as (p & Hp & Hnew & Hother).
  exists self', p. split; [done|].
  destruct domain as [|d0 domain]; [done|].
  assert (is_Some (default_preferences self' !! lit "default")) as [fb' Hfb'].
  { destruct (decide (lit "default" = d0 :: domain)) as [Heq|Hd].
    - rewrite Heq, Hnew. by eexists.
    - rewrite Hother by done. by rewrite Hdef. }
  unfold get_preferences. rewrite Hdef, Hfb', Hnew. simpl. split; [|done].
  destruct Hp as [-> | [-> Hp]]; [done|]. simpl. congruence.
Qed.

(** X16. [update_preferences] raises exactly when neither the domain nor
    ["default"] has an entry, and then with [KeyError] for ["default"];
    when it returns, it has changed the entry of its domain only and has
    removed no entry. *)
Theorem update_preferences_frame self domain c a :
  ((exists e, update_preferences self domain c a = inl e)
   <-> default_preferences self !! domain = None
       /\ default_preferences self !! lit "default" = None)
  /\ (forall e,
        update_preferences self domain c a = inl e -> e = KeyError "default")
  /\ forall self',
       update_preferences self domain c a = inr self' ->
       (forall other, other <> domain ->
          default_preferences self' !! other = default_preferences self !! other)
       /\ (forall key, is_Some (default_preferences self !! key) ->
             is_Some (default_preferences self' !! key))
       /\ is_Some (default_preferences self' !! domain).
Proof.
  split_and!.
  - unfold update_preferences.
    destruct (default_preferences self !! domain) as [p|];
      [split; [by intros [e ?]|by intros [? ?]]|].
    destruct (default_preferences self !! lit "default") as [p|];
      [split; [by intros [e ?]|by intros [? ?]]|].
    split; [done|]. intros _. by eexists.
  - intros e. unfold update_preferences.
    destruct (default_preferences self !! domain); [done|].
    destruct (default_preferences self !! lit "default"); [done|].
    by intros [= <-].
  - intros self' Hup.
    destruct (update_preferences_lookup _ _ _ _ _ Hup)
      as (p & Hp & Hnew & Hother).
    split_and!; [done| |by rewrite Hnew].
    intros key Hkey. destruct (decide (key = domain)) as [->|Hne].
    + by rewrite Hnew.
    + by rewrite Hother.
Qed.

Section Case.
Context `{CaseTable}.
Variable env : Env.

(** X17. [select_approach] reads the preferences under [domain.lower()] and
    under ["default"]; [update_preferences] writes under [domain] as it
    is given. An update under a key that is no lower-cased string, and
    is not ["default"], is never seen by [select_approach]. *)
Theorem update_under_other_case_unseen self key c a self' :
  update_preferences self key c a = inr self' ->
  (forall domain, lower domain <> key) ->
  key <> lit "default" ->
  forall problem domain score w,
    select_approach env self' problem domain score w
    = select_approach env self problem domain score w.
Proof.
  intros Hup Hcase Hdefault problem domain score w.
  destruct (update_preferences_lookup _ _ _ _ _ Hup) as (_ & _ & _ & Hother).
  unfold select_approach, preferences_for.
  rewrite !Hother by (try done; apply Hcase). done.
Qed.

End Case.

Lemma ascii_lower_no_capital domain c rest :
  (65 <= c <= 90) -> @lower ascii_lower domain <> c :: rest.
Proof.
  intros Hc. destruct domain as [|d domain]; [done|]. simpl.
  intros [= Hd _]. revert Hd.
  destruct ((65 <=? d) && (d <=? 90)) eqn:Hcap.
  - apply andb_true_iff in Hcap as [?%N.leb_le ?%N.leb_le]. lia.
  - intros ->. apply andb_false_iff in Hcap as [?%N.leb_gt | ?%N.leb_gt]; lia.
Qed.

Lemma update_then_get_preferences_witness :
  exists self',
    update_preferences Reasoning.init (lit "math") (Some 9%Z) None = inr self'
    /\ get_preferences self' (Some (lit "math"))
       = inr (inl {| complexity_threshold := 9;
                     accuracy_threshold := 85 # 100 |}).
Proof.
  destruct (update_then_get_preferences Reasoning.init (lit "math")
              (Some 9%Z) None
              {| complexity_threshold := 6; accuracy_threshold := 8 # 10 |})
    as (self' & before & Hup & Hbefore & Hafter);
    [vm_compute; reflexivity | vm_compute; discriminate |].
  exists self'. split; [exact Hup|]. rewrite Hafter.
  assert (before = {| complexity_threshold := 7;
                      accuracy_threshold := 85 # 100 |}) as ->.
  { assert (get_preferences Reasoning.init (Some (lit "math"))
            = inr (inl {| complexity_threshold := 7;
                          accuracy_threshold := 85 # 100 |})) as Hget
      by (vm_compute; reflexivity).
    rewrite Hget in Hbefore. by injection Hbefore as <-. }
  reflexivity.
Defined.

Lemma update_preferences_frame_witness :
  update_preferences {| default_preferences := ∅ |} (lit "math") (Some 9%Z) None
  = inl (KeyError "default").
Proof.
  destruct (update_preferences_frame {| default_preferences := ∅ |} (lit "math")
              (Some 9%Z) None) as ([_ Hraise] & Hkey & _).
  destruct Hraise as [e He]; [split; apply lookup_empty|].
  rewrite He. f_equal. by apply Hkey.
Defined.

Lemma update_under_other_case_unseen_witness :
  exists self',
    update_preferences Reasoning.init (lit "Math") (Some 3%Z) None = inr self'
    /\ @select_approach ascii_lower quiet_env self'
         (lit "prove it") (lit "Math") (Some 5%Z) fresh_world
       = @select_approach ascii_lower quiet_env Reasoning.init
           (lit "prove it") (lit "Math") (Some 5%Z) fresh_world.
Proof.
  destruct (update_preferences Reasoning.init (lit "Math") (Some 3%Z) None)
    as [e|self'] eqn:Hup; [vm_compute in Hup; discriminate|].
  exists self'. split; [reflexivity|].
  apply (@update_under_other_case_unseen ascii_lower quiet_env _ _ _ _ _ Hup).
  - intros domain. apply (ascii_lower_no_capital domain 77 (lit "ath")). lia.
  - vm_compute. discriminate.
Defined.

End PreferencesMore.

(** ** client.py: the runs of the orchestrator *)

Module ClientRuns.
Import Py PyFacts Effects Reasoning Client Samples Scenarios.
Import SeparatorFacts StrFacts ClientFacts.

(** A bind stops at the first failure. *)
Lemma bind_run {A B} (m : M A) (f : A -> M B) w x w' :
  (m ≫= f) w = (x, w') ->
  (exists e, m w = (inl e, w') /\ x = inl e)
  \/ exists a w1, m w = (inr a, w1) /\ f a w1 = (x, w').
Proof.
  unfold mbind, M_bind. destruct (m w) as [[e|a] w1].
  - intros [= <- <-]. left. eauto.
  - right. eauto.
Qed.

Section Stages.
Context `{CaseTable}.
Variable env : Env.

Lemma select_approach_run sel problem domain score w x w1 :
  select_approach env sel problem domain score w = (x, w1) ->
  recorded w1 = recorded w /\ chats w1 = chats w
  /\ clock_reads w1 = clock_reads w
  /\ forall e, x = inl e ->
       (e = KeyError "default" /\ w1 = w
        /\ default_preferences sel !! lit "default" = None)
       \/ get_performance_by_domain env (recorded w) domain = inl e.
Proof.
  unfold select_approach, preferences_for, mbind, M_bind, query_performance,
    raise, mret, M_ret.
  repeat case_match; intros; simplify_eq; split_and!; try done;
    intros; simplify_eq; eauto.
Qed.

Lemma enforce_and_analyze_pure reasoning limit w :
  enforce_and_analyze reasoning limit w
  = (fst (enforce_and_analyze reasoning limit fresh_world), w).
Proof.
  unfold enforce_and_analyze, raise, mret, M_ret.
  repeat case_match; done.
Qed.

Lemma enforce_stage_pure (b : bool) reasoning limit w w0 :
  (if b then enforce_and_analyze reasoning limit else mret (reasoning, None)) w
  = (fst ((if b then enforce_and_analyze reasoning limit
           else mret (reasoning, None)) w0), w).
Proof.
  destruct b; [|done].
  by rewrite (enforce_and_analyze_pure _ _ w), (enforce_and_analyze_pure _ _ w0).
Qed.


Lemma record_stage (track : bool) (event_of : Q -> InferenceEvent) w x w1 :
  (if track then end_time ← now env; record_inference env (event_of end_time)
   else mret tt) w = (x, w1) ->
  chats w1 = chats w
  /\ performance_queries w1 = performance_queries w
  /\ (if track
      then match commit_error env (recorded w)
                   (event_of (time_time env (clock_reads w))) with
           | Some e => x = inl e /\ recorded w1 = recorded w
           | None =>
               x = inr tt
               /\ recorded w1
                  = recorded w ++ [event_of (time_time env (clock_reads w))]
           end
      else x = inr tt /\ recorded w1 = recorded w).
Proof.
  destruct track; [|by intros [= <- <-]].
  unfold mbind, M_bind, now, record_inference. cbn [recorded].
  destruct (commit_error env (recorded w) _); by intros [= <- <-].
Qed.

End Stages.

Section Runs.
Context `{CaseTable}.
Variable env : Env.
Variable self : ChainOfDraftClient.

(** Every run of [solve_with_reasoning], stage by stage: the call is
    rejected for a ["domain"] keyword; or the selector fails; or the
    example store fails; or the one request is sent, and then the
    backend, the enforcement or the analytics store fails, or the result
    is returned. *)
Lemma solve_run problem domain kwargs w x w' :
  solve_with_reasoning env self problem domain kwargs w = (x, w') ->
  let local := override (settings self) kwargs in
  let complexity :=
    Complexity.estimate_complexity (complexity_estimator self) problem domain in
  (is_Some (kw_domain kwargs) /\ (exists msg, x = inl (TypeError msg)) /\ w' = w)
  \/ kw_domain kwargs = None
     /\ (((forall c forced, approach local <> Some (Some (c :: forced)))
          /\ (exists e,
                x = inl e
                /\ ((e = KeyError "default"
                     /\ default_preferences (reasoning_selector self)
                          !! lit "default" = None)
                    \/ get_performance_by_domain env (recorded w) domain
                       = inl e))
          /\ chats w' = chats w /\ recorded w' = recorded w)
         \/ exists chosen reason,
              (forall c forced,
                 approach local = Some (Some (c :: forced)) ->
                 chosen = c :: forced
                 /\ performance_queries w' = performance_queries w)
              /\ match get_examples env domain chosen with
                 | inl e =>
                     x = inl e /\ chats w' = chats w /\ recorded w' = recorded w
                 | inr examples =>
                     let limit := resolve_word_limit local chosen complexity in
                     let q :=
                       {| q_messages :=
                            [{| role := lit "user";
                                content := prompt_user problem examples |}];
                          q_model :=
                            default (Some (lit "claude-3-7-sonnet-latest"))
                              (model local);
                          q_max_tokens := max_tokens local;
                          q_temperature :=
                            default (Some (7 # 10)) (temperature local) |} in
                     chats w' = chats w ++ [q]
                     /\ match llm_chat env (length (chats w)) q with
                        | inl e => x = inl e /\ recorded w' = recorded w
                        | inr response =>
                            let parts := extract (r_content response) in
                            match fst ((if enforce_format local
                                           && bool_decide (chosen = CoD)
                                        then enforce_and_analyze (fst parts) limit
                                        else mret (fst parts, None)) w) with
                            | inl e => x = inl e /\ recorded w' = recorded w
                            | inr (reasoning, adherence) =>
                                let result :=
                                  {| reasoning_steps := reasoning;
                                     final_answer := snd parts;
                                     token_count :=
                                       length (split (r_content response));
                                     s_approach := chosen;
                                     s_complexity := complexity;
                                     word_limit := limit |} in
                                let event :=
                                  {| e_problem := problem; e_domain := domain;
                                     e_approach := chosen; e_word_limit := limit;
                                     e_tokens_used :=
                                       length (split (r_content response));
                                     e_execution_time :=
                                       (time_time env (S (clock_reads w))
                                        - time_time env (clock_reads w)) * 1000;
                                     e_reasoning := reasoning;
                                     e_answer := snd parts;
                                     e_metadata :=
                                       {| m_complexity := complexity;
                                          m_approach_reason := reason;
                                          m_adherence := adherence |} |} in
                                if track_analytics local
                                then match commit_error env (recorded w) event with
                                     | Some e =>
                                         x = inl e /\ recorded w' = recorded w
                                     | None =>
                                         x = inr result
                                         /\ recorded w' = recorded w ++ [event]
                                     end
                                else x = inr result /\ recorded w' = recorded w
                            end
                        end
                 end).
Proof.
  intros Hrun local complexity. subst local complexity. cbv zeta.
  unfold solve_with_reasoning in Hrun.
  destruct (kw_domain kwargs) as [d|] eqn:Hdomain.
  { left. injection Hrun as <- <-. eauto. }
  right. split; [done|].
  apply bind_run in Hrun as [(e & Hnow & _)|(start & w1 & Hnow & Hrun)]; [done|].
  injection Hnow as <- <-.
  apply bind_run in Hrun
    as [(e & Hsel & ->)|([chosen reason] & w2 & Hsel & Hrun)].
  { left.
    destruct (approach (override (settings self) kwargs)) as [[[|c forced]|]|] eqn:Happ; try done;
      apply select_approach_run in Hsel as (Hr & Hc & _ & Hfail);
      (split; [done|]); (split; [|done]); exists e; (split; [done|]);
      destruct (Hfail e eq_refl) as [(-> & _ & Hnone)|Hstore]; eauto. }
  right.
  assert (recorded w2 = recorded w /\ chats w2 = chats w
          /\ clock_reads w2 = S (clock_reads w)
          /\ forall c forced,
               approach (override (settings self) kwargs) = Some (Some (c :: forced)) ->
               chosen = c :: forced
               /\ performance_queries w2 = performance_queries w)
    as (Hr2 & Hc2 & Hk2 & Hforced).
  { destruct (approach (override (settings self) kwargs)) as [[[|c forced]|]|] eqn:Happ;
      try (apply select_approach_run in Hsel as (? & ? & ? & _);
           split_and!; done).
    injection Hsel as <- _ <-. split_and!; try done.
    by intros ? ? [= <- <-]. }
  clear Hsel. exists chosen, reason.
  apply bind_run in Hrun as [(e & Hex & ->)|(examples & w3 & Hex & Hrun)].
  { injection Hex as Hex <-. rewrite Hex.
    split_and!; try done; intros c forced Happ;
      by destruct (Hforced c forced Happ). }
  injection Hex as Hex <-. rewrite Hex. clear Hex.
  match type of Hrun with
  | context [chat_backend env ?q0] => set (q := q0) in *
  end.
  apply bind_run in Hrun as [(e & Hchat & ->)|(response & w4 & Hchat & Hrun)].
  { injection Hchat as Hllm <-. rewrite Hc2 in Hllm.
    cbn [chats recorded performance_queries]. rewrite Hc2, Hllm.
    split_and!; try done; intros c forced Happ;
      by destruct (Hforced c forced Happ). }
  injection Hchat as Hllm <-. rewrite Hc2 in Hllm.
  rewrite Hllm. clear Hllm.
  destruct (extract (r_content response)) as [reasoning answer] eqn:Hparts.
  cbn [fst snd].
  rewrite (enforce_stage_pure _ _ _ w fresh_world).
  apply bind_run in Hrun
    as [(e & Henf & ->)|([reasoning' adherence] & w5 & Henf & Hrun)];
    rewrite (enforce_stage_pure _ _ _ _ fresh_world) in Henf.
  { pose proof (f_equal snd Henf) as Hw. apply (f_equal fst) in Henf.
    cbn [fst snd] in Henf, Hw. subst w'.
    rewrite Henf. cbn [chats recorded performance_queries].
    rewrite Hc2. split_and!; try done; intros c forced Happ;
      by destruct (Hforced c forced Happ). }
  pose proof (f_equal snd Henf) as Hw. apply (f_equal fst) in Henf.
  cbn [fst snd] in Henf, Hw. subst w5.
  rewrite Henf.
  apply bind_run in Hrun as [(e & Hrec & ->)|([] & w6 & Hrec & Hrun)];
    apply record_stage in Hrec as (Hc6 & Hq6 & Hrec);
    cbn [chats recorded performance_queries clock_reads] in *;
    rewrite Hr2, Hk2 in Hrec.
  - rewrite Hc6, Hq6, Hc2. cbn [fst].
    split_and!; try (intros c forced Happ; by destruct (Hforced c forced Happ));
      try done.
    revert Hrec.
    destruct (track_analytics (override (settings self) kwargs));
      [destruct (commit_error env (recorded w) _)|];
      intros [? ?]; by simplify_eq.
  - injection Hrun as <- <-. rewrite Hc6, Hq6, Hc2. cbn [fst].
    split_and!; try (intros c forced Happ; by destruct (Hforced c forced Happ));
      try done.
    revert Hrec.
    destruct (track_analytics (override (settings self) kwargs));
      [destruct (commit_error env (recorded w) _)|];
      intros [? ?]; by simplify_eq.
Qed.


(** X19. With an approach given by the caller or in the settings, the
    selector is not consulted: whatever the outcome, the store is not
    asked for its statistics, and a result carries the given approach as
    it was given; and when the call has no ["domain"] keyword and the
    example store answers, the request goes to the backend, whatever the
    preferences and the statistics are. *)
Theorem forced_approach_bypasses_selector problem domain kwargs c forced w x w' :
  approach (override (settings self) kwargs) = Some (Some (c :: forced)) ->
  solve_with_reasoning env self problem domain kwargs w = (x, w') ->
  performance_queries w' = performance_queries w
  /\ (forall result, x = inr result -> s_approach result = c :: forced)
  /\ (kw_domain kwargs = None ->
      forall examples,
        get_examples env domain (c :: forced) = inr examples ->
        exists q, chats w' = chats w ++ [q]).
Proof.
  intros Happ Hrun. apply solve_run in Hrun. cbv zeta in Hrun.
  destruct Hrun as [(Hdomain & (msg & ->) & ->)
                   |(Hnone & [(Hnot & _)
                             |(chosen & reason & Hforced & Hrun)])].
  { split_and!; [done|done|]. intros Hno. rewrite Hno in Hdomain.
    by destruct Hdomain. }
  { by destruct (Hnot c forced). }
  destruct (Hforced c forced Happ) as [-> Hq].
  split; [done|].
  destruct (get_examples env domain (c :: forced)) as [e'|examples] eqn:Hex.
  { destruct Hrun as (-> & _). split; [done|]. intros _ ? [=]. }
  destruct Hrun as [Hc Hrun]. split; [|intros _ ? _; eauto].
  intros result ->.
  match type of Hrun with
  | context [llm_chat env ?n ?q0] =>
      destruct (llm_chat env n q0) as [e'|response]
  end; [by destruct Hrun|].
  destruct (fst _) as [e'|[reasoning adherence]]; [by destruct Hrun|].
  destruct (track_analytics (override (settings self) kwargs)).
  - match type of Hrun with
    | context [commit_error env (recorded w) ?ev] =>
        destruct (commit_error env (recorded w) ev)
    end; [by destruct Hrun|].
    by destruct Hrun as [[= ->] _].
  - by destruct Hrun as [[= ->] _].
Qed.

(** The shape of a returned result: the one request, its answer, and
    what the enforcement stage made of the answer's reasoning. *)
Lemma returned_run problem domain kwargs w result w' :
  solve_with_reasoning env self problem domain kwargs w = (inr result, w') ->
  let local := override (settings self) kwargs in
  let complexity :=
    Complexity.estimate_complexity (complexity_estimator self) problem domain in
  exists chosen reason q response reasoning adherence,
    chats w' = chats w ++ [q]
    /\ llm_chat env (length (chats w)) q = inr response
    /\ fst ((if enforce_format local && bool_decide (chosen = CoD)
             then enforce_and_analyze (fst (extract (r_content response)))
                    (resolve_word_limit local chosen complexity)
             else mret (fst (extract (r_content response)), None)) w)
       = inr (reasoning, adherence)
    /\ result = {| reasoning_steps := reasoning;
                   final_answer := snd (extract (r_content response));
                   token_count := length (split (r_content response));
                   s_approach := chosen; s_complexity := complexity;
                   word_limit := resolve_word_limit local chosen complexity |}
    /\ recorded w'
       = if track_analytics local
         then recorded w ++ [{|
           e_problem := problem; e_domain := domain;
           e_approach := chosen;
           e_word_limit := resolve_word_limit local chosen complexity;
           e_tokens_used := length (split (r_content response));
           e_execution_time :=
             (time_time env (S (clock_reads w))
              - time_time env (clock_reads w)) * 1000;
           e_reasoning := reasoning;
           e_answer := snd (extract (r_content response));
           e_metadata := {| m_complexity := complexity;
                            m_approach_reason := reason;
                            m_adherence := adherence |} |}]
         else recorded w.
Proof.
  intros Hrun local complexity. subst local complexity.
  apply solve_run in Hrun. cbv zeta in Hrun.
  destruct Hrun as [(_ & (msg & [=]) & _)
                   |(_ & [(_ & (e' & [=] & _) & _)
                         |(chosen & reason & _ & Hrun)])].
  destruct (get_examples env domain chosen) as [e'|examples];
    [by destruct Hrun|].
  destruct Hrun as [Hc Hrun].
  match type of Hc with _ = _ ++ [?q0] => set (q := q0) in * end.
  destruct (llm_chat env (length (chats w)) q) as [e'|response] eqn:Hllm;
    [by destruct Hrun|].
  destruct (fst _) as [e'|[reasoning adherence]] eqn:Henf; [by destruct Hrun|].
  exists chosen, reason, q, response, reasoning, adherence.
  split; [done|]. split; [done|]. split; [done|].
  destruct (track_analytics (override (settings self) kwargs)).
  - match type of Hrun with
    | context [commit_error env (recorded w) ?ev] =>
        destruct (commit_error env (recorded w) ev)
    end; [by destruct Hrun|].
    by destruct Hrun as [[= ->] ->].
  - by destruct Hrun as [[= ->] ->].
Qed.

(** X20. Only Chain-of-Draft reasoning is cut: when the approach of the
    result is not exactly ["CoD"], or [enforce_format] is off, the
    reasoning returned is the stripped text before the separator as the
    backend wrote it; and for an approach other than ["CoD"] the word
    limit reported is the [max_words_per_step] setting. *)
Theorem only_cod_is_enforced problem domain kwargs w result w' :
  solve_with_reasoning env self problem domain kwargs w = (inr result, w') ->
  s_approach result <> CoD
  \/ enforce_format (override (settings self) kwargs) = false ->
  (exists q response,
      chats w' = chats w ++ [q]
      /\ llm_chat env (length (chats w)) q = inr response
      /\ (reasoning_steps result, final_answer result)
         = extract (r_content response))
  /\ (s_approach result <> CoD ->
      word_limit result = max_words_per_step (override (settings self) kwargs)).
Proof.
  intros Hrun Hoff. apply returned_run in Hrun. cbv zeta in Hrun.
  destruct Hrun as (chosen & reason & q & response & reasoning & adherence
                    & Hc & Hllm & Henf & -> & _).
  cbn [s_approach reasoning_steps final_answer word_limit] in *.
  assert (enforce_format (override (settings self) kwargs)
          && bool_decide (chosen = CoD) = false) as Hcond.
  { destruct Hoff as [Hne| ->]; [|done].
    rewrite (bool_decide_eq_false_2 _ Hne). apply andb_false_r. }
  rewrite Hcond in Henf. cbn [mret M_ret fst] in Henf.
  injection Henf as <- _.
  split.
  - exists q, response. split_and!; [done|done|].
    exact (eq_sym (surjective_pairing (extract (r_content response)))).
  - intros Hne. unfold resolve_word_limit.
    rewrite (bool_decide_eq_false_2 _ Hne). by rewrite andb_false_r.
Qed.

(** X21. The event that a tracked run records agrees with the result
    that the run returns: the same approach, word limit, reasoning,
    answer, complexity and token count, for the problem and domain of the
    call, with the time between the two readings of the clock, in
    milliseconds. An untracked run records nothing. *)
Theorem recorded_event_matches_result problem domain kwargs w result w' :
  solve_with_reasoning env self problem domain kwargs w = (inr result, w') ->
  if track_analytics (override (settings self) kwargs)
  then exists event,
         recorded w' = recorded w ++ [event]
         /\ e_problem event = problem /\ e_domain event = domain
         /\ e_approach event = s_approach result
         /\ e_word_limit event = word_limit result
         /\ e_tokens_used event = token_count result
         /\ e_reasoning event = reasoning_steps result
         /\ e_answer event = final_answer result
         /\ m_complexity (e_metadata event) = s_complexity result
         /\ e_execution_time event
            = ((time_time env (S (clock_reads w))
                - time_time env (clock_reads w)) * 1000)%Q
  else recorded w' = recorded w.
Proof.
  intros Hrun. apply returned_run in Hrun. cbv zeta in Hrun.
  destruct Hrun as (chosen & reason & q & response & reasoning & adherence
                    & _ & _ & _ & -> & Hr).
  destruct (track_analytics (override (settings self) kwargs)); [|done].
  eexists. split; [exact Hr|]. done.
Qed.

(** X22. Without a model in the call, the three public interfaces read
    [self.settings["model"]]; a client whose settings have no such key,
    as after [ChainOfDraftClient()], fails there with [KeyError], before
    anything is sent or recorded. *)
Theorem model_required model kwargs w :
  Client.model (settings self) = None ->
  model = None \/ model = Some [] ->
  (forall c rest,
     completions env self model (Some (c :: rest)) kwargs w
     = (inl (KeyError "model"), w))
  /\ forall msgs,
       last_user_message msgs <> [] ->
       chat env self model (Some msgs) kwargs w = (inl (KeyError "model"), w)
       /\ messages env self model (Some msgs) kwargs w
          = (inl (KeyError "model"), w).
Proof.
  intros Hnone Hmodel.
  assert (forall A (k : option str -> M A),
            (model_or_setting self model ≫= k) w = (inl (KeyError "model"), w))
    as Hfail.
  { intros A k. unfold model_or_setting, mbind, M_bind. rewrite Hnone.
    by destruct Hmodel as [-> | ->]. }
  split.
  - intros c rest. unfold completions. apply Hfail.
  - intros msgs Hlast. unfold chat, messages.
    destruct msgs as [|m0 ms]; [done|].
    destruct (last_user_message (m0 :: ms)); [done|].
    split; apply Hfail.
Qed.

(** X23. A [domain] keyword never reaches the orchestrator: the three
    public interfaces read it and then pass it a second time beside the
    positional argument, and the call fails with [TypeError] before
    anything is sent or recorded. *)
Theorem domain_keyword_rejected c m d kwargs w :
  kw_domain kwargs = Some d ->
  exists msg,
    (forall p rest,
       completions env self (Some (c :: m)) (Some (p :: rest)) kwargs w
       = (inl (TypeError msg), w))
    /\ forall msgs,
         last_user_message msgs <> [] ->
         chat env self (Some (c :: m)) (Some msgs) kwargs w
         = (inl (TypeError msg), w)
         /\ messages env self (Some (c :: m)) (Some msgs) kwargs w
            = (inl (TypeError msg), w).
Proof.
  intros Hd. eexists. split.
  - intros p rest.
    unfold completions, call_solve, solve_with_reasoning, mbind, M_bind.
    simpl. rewrite Hd. reflexivity.
  - intros msgs Hlast.
    unfold chat, messages, call_solve, solve_with_reasoning, mbind, M_bind.
    destruct msgs as [|m0 ms]; [done|].
    destruct (last_user_message (m0 :: ms)); [done|].
    simpl. rewrite Hd. done.
Qed.


End Runs.

(** *** The conversation and the rendered answer *)

(** X25. The problem of [chat] and [messages] is the content of the last
    message whose role is ["user"]; what comes after it is skipped. *)
Theorem last_user_message_last pre m post :
  role m = lit "user" ->
  (forall m', m' ∈ post -> role m' <> lit "user") ->
  last_user_message (pre ++ m :: post) = content m.
Proof.
  intros Hrole Hpost. unfold last_user_message.
  rewrite rev_app_distr. simpl. rewrite <- app_assoc. simpl.
  rewrite filter_app.
  assert (filter (fun m => role m = lit "user") (rev post) = []) as ->.
  { induction post as [|p post IH]; [done|]. simpl. rewrite filter_app.
    rewrite IH by (intros; apply Hpost; by right).
    rewrite filter_cons_False by (apply Hpost; by left). done. }
  simpl. by rewrite filter_cons_True.
Qed.

Lemma startswith_before p s b t :
  Forall (fun c => c <> b) p ->
  startswith p (s ++ b :: t) = startswith p s.
Proof.
  intros Hp. revert s. induction Hp as [|a p Ha Hp IH]; intros s; [done|].
  destruct s as [|c s]; simpl.
  - by rewrite (proj2 (N.eqb_neq a b) Ha).
  - by rewrite IH.
Qed.

Lemma find_after p s b t :
  Forall (fun c => c <> b) p -> p <> [] ->
  find p s = None ->
  find p (s ++ b :: t) = (fun i => S (length s + i)) <$> find p t.
Proof.
  intros Hp Hne. induction s as [|c s IH]; intros Hs.
  - simpl app. destruct p as [|a p]; [done|].
    simpl find at 1. apply Forall_cons in Hp as [Ha _].
    rewrite (proj2 (N.eqb_neq a b) Ha). simpl.
    by destruct (find (a :: p) t).
  - change ((c :: s) ++ b :: t) with (c :: (s ++ b :: t)).
    simpl find at 1. simpl find in Hs.
    change (c :: (s ++ b :: t)) with ((c :: s) ++ b :: t).
    rewrite startswith_before by done.
    destruct (startswith p (c :: s)); [done|].
    destruct (find p s) eqn:Hf; [done|].
    rewrite IH by done. by destruct (find p t).
Qed.

Lemma find_skip p b t :
  Forall (fun c => c <> b) p -> p <> [] ->
  find p (b :: t) = S <$> find p t.
Proof.
  intros Hp Hne. apply (find_after p [] b t Hp Hne). by destruct p.
Qed.

(** X26. What [chat] and [messages] render is read back by the split of
    [solve_with_reasoning]: a reasoning and an answer without the
    separator come back, stripped. *)
Theorem extract_render result :
  find (lit "####") (reasoning_steps result) = None ->
  find (lit "####") (final_answer result) = None ->
  extract (render result)
  = (strip (reasoning_steps result), strip (final_answer result)).
Proof.
  intros Hr Ha. unfold render.
  set (r := reasoning_steps result) in *. set (a := final_answer result) in *.
  assert (Forall (fun c => c <> nl) (lit "####")) as Hsep
    by (repeat constructor; done).
  assert (find (lit "####") (r ++ [nl; nl] ++ lit "####" ++ [nl] ++ a)
          = Some (length r + 2)%nat) as Hfind.
  { change (r ++ [nl; nl] ++ lit "####" ++ [nl] ++ a)
      with (r ++ nl :: (nl :: lit "####" ++ [nl] ++ a)).
    rewrite find_after by done.
    rewrite find_skip by done. simpl. f_equal. lia. }
  assert (find (lit "####") (nl :: a) = None) as Hrest.
  { rewrite find_skip by done. by rewrite Ha. }
  unfold extract. rewrite split_on_find by done. rewrite Hfind.
  change (length (lit "####")) with 4%nat.
  assert (take (length r + 2) (r ++ [nl; nl] ++ lit "####" ++ [nl] ++ a)
          = r ++ [nl; nl]) as ->.
  { rewrite (app_assoc r [nl; nl]).
    apply take_app_length'. rewrite length_app. done. }
  assert (drop (length r + 2 + 4) (r ++ [nl; nl] ++ lit "####" ++ [nl] ++ a)
          = nl :: a) as ->.
  { change (r ++ [nl; nl] ++ lit "####" ++ [nl] ++ a)
      with (r ++ ([nl; nl] ++ lit "####") ++ nl :: a).
    rewrite app_assoc. apply drop_app_length'. rewrite length_app.
    simpl. lia. }
  rewrite split_on_find by done. rewrite Hrest. cbv zeta. simpl lookup.
  cbn [default]. unfold id.
  rewrite (strip_app_space r [nl; nl]) by (by repeat constructor).
  by rewrite (strip_cons_space nl a).
Qed.

(** *** Instances *)



Lemma forced_approach_bypasses_selector_witness :
  performance_queries
    (snd (@solve_with_reasoning ascii_lower poor_history_env
            (Client.init no_kwargs) (lit "2 + 2?") (lit "math") forced_cod_limit_5
            fresh_world)) = [].
Proof.
  destruct (@forced_approach_bypasses_selector ascii_lower poor_history_env
              (Client.init no_kwargs) (lit "2 + 2?") (lit "math")
              forced_cod_limit_5 67 (lit "oD") fresh_world _ _
              ltac:(vm_compute; reflexivity)
              (surjective_pairing _)) as (Hq & _).
  exact Hq.
Defined.

Lemma only_cod_is_enforced_witness :
  exists result w',
    @solve_with_reasoning ascii_lower quiet_env (Client.init no_kwargs)
      (lit "prove it") (lit "math") forced_cot fresh_world = (inr result, w')
    /\ word_limit result = Some 8%Z
    /\ reasoning_steps result = lit "1. twenty minus twelve is eight".
Proof.
  assert (exists result w',
            @solve_with_reasoning ascii_lower quiet_env (Client.init no_kwargs)
              (lit "prove it") (lit "math") forced_cot fresh_world
            = (inr result, w')
            /\ s_approach result = CoT) as (result & w' & Hrun & Happ)
    by (eexists _, _; vm_compute; split; reflexivity).
  exists result, w'. split; [exact Hrun|].
  assert (s_approach result <> CoD) as Hne
    by (rewrite Happ; vm_compute; discriminate).
  destruct (@only_cod_is_enforced ascii_lower quiet_env _ _ _ _ _ _ _ Hrun
              (or_introl Hne))
    as [(q & response & _ & Hllm & Hparts) Hlimit].
  split.
  - rewrite (Hlimit Hne). reflexivity.
  - injection Hllm as <-. injection Hparts as -> _. vm_compute. reflexivity.
Defined.

Lemma recorded_event_matches_result_witness :
  exists result w' event,
    @solve_with_reasoning ascii_lower quiet_env (Client.init no_kwargs)
      (lit "prove it") (lit "math") no_kwargs fresh_world = (inr result, w')
    /\ recorded w' = [event]
    /\ e_approach event = s_approach result
    /\ e_reasoning event = reasoning_steps result
    /\ e_execution_time event = 1000%Q.
Proof.
  assert (exists result w',
            @solve_with_reasoning ascii_lower quiet_env (Client.init no_kwargs)
              (lit "prove it") (lit "math") no_kwargs fresh_world
            = (inr result, w')) as (result & w' & Hrun)
    by (eexists _, _; vm_compute; reflexivity).
  pose proof (@recorded_event_matches_result ascii_lower quiet_env _ _ _ _ _ _ _
                Hrun) as Hevent.
  change (track_analytics (override (settings (Client.init no_kwargs)) no_kwargs))
    with true in Hevent.
  destruct Hevent as (event & Hrec & _ & _ & Happ & _ & _ & Hreason & _ & _ & Htime).
  exists result, w', event. split_and!; done.
Defined.

Lemma model_required_witness :
  @completions ascii_lower quiet_env (Client.init no_kwargs) None
    (Some (lit "2 + 2?")) no_kwargs fresh_world
  = (inl (KeyError "model"), fresh_world).
Proof.
  destruct (@model_required ascii_lower quiet_env (Client.init no_kwargs) None
              no_kwargs fresh_world eq_refl (or_introl eq_refl)) as [Hc _].
  apply Hc.
Defined.

Lemma domain_keyword_rejected_witness :
  exists msg,
    @completions ascii_lower quiet_env (Client.init no_kwargs)
      (Some (lit "claude")) (Some (lit "2 + 2?")) domain_math fresh_world
    = (inl (TypeError msg), fresh_world).
Proof.
  destruct (@domain_keyword_rejected ascii_lower quiet_env
              (Client.init no_kwargs) 99 (lit "laude") (lit "math") domain_math
              fresh_world eq_refl) as (msg & Hc & _).
  exists msg. apply Hc.
Defined.

Lemma last_user_message_last_witness :
  last_user_message conversation = lit "and 3 + 3?".
Proof.
  apply (last_user_message_last
           [{| role := lit "user"; content := lit "2 + 2?" |};
            {| role := lit "assistant"; content := lit "4" |}]
           {| role := lit "user"; content := lit "and 3 + 3?" |}
           [{| role := lit "system"; content := lit "be brief" |}]).
  - reflexivity.
  - intros m' ->%list_elem_of_singleton. vm_compute. discriminate.
Defined.

Lemma extract_render_witness :
  extract (lit "1. twenty minus twelve" ++ [nl; nl] ++ lit "####" ++ [nl]
           ++ lit "8")
  = (lit "1. twenty minus twelve", lit "8").
Proof.
  apply (extract_render
           {| reasoning_steps := lit "1. twenty minus twelve";
              final_answer := lit "8"; token_count := 0;
              s_approach := CoD; s_complexity := 0; word_limit := None |});
    vm_compute; reflexivity.
Defined.

End ClientRuns.

(** ** client.py and reasoning.py: what is sent to the backend *)

Module RequestFacts.
Import Py Effects Reasoning Client Samples Scenarios ClientRuns.

Lemma example_text_from examples acc :
  acc `prefix_of`
  fold_left
    (fun text example =>
       text ++ [nl] ++ lit "Problem: " ++ x_problem example
            ++ [nl] ++ lit "Solution:" ++ [nl] ++ x_reasoning example
            ++ [nl] ++ lit "####" ++ [nl] ++ x_answer example ++ [nl])
    examples acc.
Proof.
  revert acc. induction examples as [|x xs IH]; intros acc; [done|].
  cbn [fold_left]. etrans; [|apply IH]. by apply prefix_app_r.
Qed.

Lemma example_text_nonempty x xs : nonempty (example_text (x :: xs)) = true.
Proof.
  unfold example_text. cbn [fold_left].
  match goal with
  | |- context [fold_left ?f xs ?acc] =>
      destruct (example_text_from xs acc) as [k ->]
  end.
  reflexivity.
Qed.

(** X27. The user prompt of [create_cod_prompt] and [create_cot_prompt]
    is ["Problem: "] and the problem when there is no example; with
    examples it is their text, a newline, and the same line: the problem
    always comes last, and as it was given. *)
Theorem prompt_user_shape problem examples :
  prompt_user problem examples
  = match examples with
    | [] => lit "Problem: " ++ problem
    | _ :: _ => example_text examples ++ [nl] ++ lit "Problem: " ++ problem
    end
  /\ (lit "Problem: " ++ problem) `suffix_of` prompt_user problem examples.
Proof.
  assert (prompt_user problem examples
          = match examples with
            | [] => lit "Problem: " ++ problem
            | _ :: _ => example_text examples ++ [nl] ++ lit "Problem: " ++ problem
            end) as Hshape.
  { unfold prompt_user. destruct examples as [|x xs]; [done|].
    by rewrite example_text_nonempty. }
  split; [done|]. rewrite Hshape.
  destruct examples as [|x xs]; [done|].
  rewrite (app_assoc _ [nl]). by apply suffix_app_r.
Qed.

Lemma chats_bind_congr {A B} (m : M A) (f g : A -> M B) w :
  (forall a w1, chats (snd (f a w1)) = chats (snd (g a w1))) ->
  chats (snd ((m ≫= f) w)) = chats (snd ((m ≫= g) w)).
Proof.
  intros Hfg. unfold mbind, M_bind. destruct (m w) as [[e|a] w1]; [done|].
  apply Hfg.
Qed.

Lemma chats_bind_kept {A B} (m : M A) (f : A -> M B) w :
  (forall a w1, chats (snd (f a w1)) = chats w1) ->
  chats (snd ((m ≫= f) w)) = chats (snd (m w)).
Proof.
  intros Hf. unfold mbind, M_bind. destruct (m w) as [[e|a] w1]; [done|].
  apply Hf.
Qed.

Section Request.
Context `{CaseTable}.
Variable env : Env.
Variable self : ChainOfDraftClient.

(** X28. The requests that go to the backend do not depend on the word
    limit: two calls whose keyword arguments agree on [approach],
    [model], [max_tokens] and [temperature], and which both have or both
    lack the ["domain"] key (for which a call is rejected), send the
    same requests, whatever they say on [max_words_per_step],
    [adaptive_word_limit], [enforce_format] and [track_analytics]. *)
Theorem request_ignores_word_limit problem domain kwargs kwargs' w :
  (kw_domain kwargs' = None <-> kw_domain kwargs = None) ->
  kw_approach kwargs' = kw_approach kwargs ->
  kw_model kwargs' = kw_model kwargs ->
  kw_max_tokens kwargs' = kw_max_tokens kwargs ->
  kw_temperature kwargs' = kw_temperature kwargs ->
  chats (snd (solve_with_reasoning env self problem domain kwargs' w))
  = chats (snd (solve_with_reasoning env self problem domain kwargs w)).
Proof.
  intros Hdomain Happ Hmodel Htokens Htemp.
  assert (approach (override (settings self) kwargs')
          = approach (override (settings self) kwargs)) as Happ'
    by (unfold override; simpl; by rewrite Happ).
  assert (model (override (settings self) kwargs')
          = model (override (settings self) kwargs)) as Hmodel'
    by (unfold override; simpl; by rewrite Hmodel).
  assert (max_tokens (override (settings self) kwargs')
          = max_tokens (override (settings self) kwargs)) as Htokens'
    by (unfold override; simpl; by rewrite Htokens).
  assert (temperature (override (settings self) kwargs')
          = temperature (override (settings self) kwargs)) as Htemp'
    by (unfold override; simpl; by rewrite Htemp).
  unfold solve_with_reasoning.
  destruct (kw_domain kwargs') as [d'|] eqn:Hd';
    destruct (kw_domain kwargs) as [d|] eqn:Hd;
    [done | discriminate (proj2 Hdomain eq_refl)
    | discriminate (proj1 Hdomain eq_refl) |].
  rewrite Happ', Hmodel', Htokens', Htemp'.
  apply chats_bind_congr; intros start_time w1.
  apply chats_bind_congr; intros [chosen reason] w2.
  apply chats_bind_congr; intros examples w3.
  rewrite !chats_bind_kept; [done| |]; intros response w4;
    destruct (extract (r_content response)) as [reasoning answer];
    (rewrite chats_bind_kept;
     [by rewrite (enforce_stage_pure _ _ _ _ fresh_world)|]);
    intros [reasoning' adherence] w5;
    (rewrite chats_bind_kept; [|done]);
    match goal with
    | |- context [if ?track then _ else _] => destruct track; [|done]
    end;
    unfold mbind, M_bind, now, record_inference; cbn [recorded];
    match goal with
    | |- context [commit_error env ?events ?event] =>
        by destruct (commit_error env events event)
    end.
Qed.

End Request.

Lemma request_ignores_word_limit_witness :
  chats (snd (@solve_with_reasoning ascii_lower quiet_env (Client.init no_kwargs)
                (lit "prove it") (lit "math") forced_cod_limit_5 fresh_world))
  = chats (snd (@solve_with_reasoning ascii_lower quiet_env
                  (Client.init no_kwargs) (lit "prove it") (lit "math")
                  {| kw_max_words_per_step := Some (Some 1%Z);
                     kw_enforce_format := Some false;
                     kw_adaptive_word_limit := Some false;
                     kw_track_analytics := Some false;
                     kw_max_tokens := None; kw_model := None;
                     kw_approach := Some (Some CoD);
                     kw_temperature := None; kw_domain := None |}
                  fresh_world)).
Proof. apply request_ignores_word_limit; [split|..]; reflexivity. Defined.
End RequestFacts.
